(** * The action registry of Porcupine ([porcupine/actions.py])

    A shallow embedding of the module: the registry [_actions], the
    [Action] class with its [enabled] property and its variable check, the
    three registration functions with their shared constructor
    [_add_any_action], and [get_action].

    The module talks to four collaborators that live outside of it: the main
    window ([event_generate], [bind_all], [bind_class]), the tab manager
    ([select], [bind]), tkinter variables ([get], [set], [trace_add]) and
    the [warnings] module.  Each of them is a component of the state below,
    and every function of the module is a computation in a state-and-exception
    monad over that state: a Python exception leaves the effects that
    happened before it in place. *)

From Stdlib Require Import String Ascii List Bool Arith Lia.
From stdpp Require Import base option list gmap strings fin_maps.

Import ListNotations.
Local Open Scope string_scope.
Local Open Scope list_scope.

(** ** Python strings

    A [str] is embedded as a [string].  The three methods the module uses
    are only ever called with the one-character argument ['/'], an ASCII
    character, so a byte-wise reading of UTF-8 text agrees with Python's
    reading by code point. *)

Definition startswith (s : string) (c : ascii) : bool :=
  match s with
  | EmptyString => false
  | String a _ => Ascii.eqb a c
  end.

Fixpoint endswith (s : string) (c : ascii) : bool :=
  match s with
  | EmptyString => false
  | String a EmptyString => Ascii.eqb a c
  | String _ s' => endswith s' c
  end.

(** [s.rstrip(c)]: every trailing occurrence of [c] is removed. *)
Fixpoint rstrip (s : string) (c : ascii) : string :=
  match s with
  | EmptyString => EmptyString
  | String a s' =>
      match rstrip s' c with
      | EmptyString => if Ascii.eqb a c then EmptyString else String a EmptyString
      | r => String a r
      end
  end.

Definition slash : ascii := "/"%char.

(** ** Python classes and [isinstance]

    The tab classes come from [porcupine.tabs].  A class is known by its
    name and the names of its proper ancestors (the tail of its method
    resolution order); [isinstance] follows that order, as in Python. *)

Record pyclass := PyClass { cls_name : string; cls_bases : list string }.

#[global] Instance pyclass_eq_dec : EqDecision pyclass.
Proof. solve_decision. Defined.

Definition NoneType : pyclass := PyClass "NoneType" ["object"].

Definition mro (c : pyclass) : list string := cls_name c :: cls_bases c.

Definition issubclass (c d : pyclass) : bool :=
  bool_decide (cls_name d ∈ mro c).

(** The object returned by [select()] is a tab or [None]; only its class
    matters here, so a tab is given by its class. *)
Definition type_of (obj : option pyclass) : pyclass :=
  match obj with
  | None => NoneType
  | Some c => c
  end.

Definition isinstance (obj : option pyclass) (classinfo : list pyclass) : bool :=
  existsb (issubclass (type_of obj)) classinfo.

(** ** Data model *)

Inductive Kind := command | choice | yesno.

#[global] Instance Kind_eq_dec : EqDecision Kind.
Proof. solve_decision. Defined.

Definition kind_str (k : Kind) : string :=
  match k with
  | command => "command"
  | choice => "choice"
  | yesno => "yesno"
  end.

(** What a tkinter variable holds: a [BooleanVar] a boolean, a [StringVar]
    a string. *)
Inductive value := VBool (b : bool) | VStr (t : string).

#[global] Instance value_eq_dec : EqDecision value.
Proof. solve_decision. Defined.

(** The argument [callback_or_choices] of the constructor.  A callback is
    known by a number; running it is recorded in the state. *)
Inductive callback_or_choices :=
| Callback (f : nat)
| Choices (l : list string)
| NoCallback.

Module Action.
(** An instance of the class.  The attributes [callback], [var] and
    [choices] exist for some kinds only. *)
Record t := Make {
  path : string;
  kind : Kind;
  binding : option string;
  _enabled : bool;
  callback : option nat;
  var : option nat;
  choices : option (list string)
}.

Definition with_enabled (b : bool) (a : t) : t :=
  Make (path a) (kind a) (binding a) b (callback a) (var a) (choices a).
End Action.

#[global] Instance Action_eq_dec : EqDecision Action.t.
Proof. solve_decision. Defined.

(** A tkinter variable: its content and its write traces.  A trace is the
    bound method [_var_set_check] of an action, given by the action's path.
    Tcl runs the traces of a variable most recent first, so a new trace goes
    to the front. *)
Record Cell := MkCell { content : value; traces : list string }.

(** A call of [warnings.warn]: the [repr] of the action (path, kind,
    enabled) and the offending value. *)
Record Warning := MkWarning {
  w_path : string;
  w_kind : Kind;
  w_enabled : bool;
  w_value : value
}.

Inductive BreakOrNone := Break | PyNone.

(** A script bound to a key sequence: the closure [bind_callback] of an
    action, or a handler of somebody else, which records that it ran and
    returns a fixed answer. *)
Inductive handler :=
| BindCallback (action : string) (k : Kind)
| Foreign (f : nat) (ret : BreakOrNone).

Record State := MkState {
  _actions : gmap string Action.t;
  (** insertion order of the [OrderedDict] *)
  _order : list string;
  (** tkinter variables, by the number in their Tcl name *)
  tk_vars : gmap nat Cell;
  (** [event_generate] calls on the main window: event and data *)
  generated : list (string * string);
  (** [warnings.warn] calls *)
  warned : list Warning;
  (** the tab manager's selected tab *)
  selected : option pyclass;
  (** the [enable_or_disable] closures bound to [<<NotebookTabChanged>>]:
      the action and [actual_tabtypes] *)
  tab_changed : list (string * list pyclass);
  (** scripts bound to a (bind tag, key sequence) *)
  bound : gmap (string * string) (list handler);
  (** callbacks and foreign handlers that ran *)
  called : list nat
}.

Definition set_actions (f : gmap string Action.t → gmap string Action.t) (s : State) : State :=
  MkState (f (_actions s)) (_order s) (tk_vars s) (generated s) (warned s)
          (selected s) (tab_changed s) (bound s) (called s).
Definition set_order (f : list string → list string) (s : State) : State :=
  MkState (_actions s) (f (_order s)) (tk_vars s) (generated s) (warned s)
          (selected s) (tab_changed s) (bound s) (called s).
Definition set_tk_vars (f : gmap nat Cell → gmap nat Cell) (s : State) : State :=
  MkState (_actions s) (_order s) (f (tk_vars s)) (generated s) (warned s)
          (selected s) (tab_changed s) (bound s) (called s).
Definition set_generated (f : list (string * string) → list (string * string)) (s : State) : State :=
  MkState (_actions s) (_order s) (tk_vars s) (f (generated s)) (warned s)
          (selected s) (tab_changed s) (bound s) (called s).
Definition set_warned (f : list Warning → list Warning) (s : State) : State :=
  MkState (_actions s) (_order s) (tk_vars s) (generated s) (f (warned s))
          (selected s) (tab_changed s) (bound s) (called s).
Definition set_selected (tab : option pyclass) (s : State) : State :=
  MkState (_actions s) (_order s) (tk_vars s) (generated s) (warned s)
          tab (tab_changed s) (bound s) (called s).
Definition set_tab_changed (f : list (string * list pyclass) → list (string * list pyclass)) (s : State) : State :=
  MkState (_actions s) (_order s) (tk_vars s) (generated s) (warned s)
          (selected s) (f (tab_changed s)) (bound s) (called s).
Definition set_bound (f : gmap (string * string) (list handler) → gmap (string * string) (list handler)) (s : State) : State :=
  MkState (_actions s) (_order s) (tk_vars s) (generated s) (warned s)
          (selected s) (tab_changed s) (f (bound s)) (called s).
Definition set_called (f : list nat → list nat) (s : State) : State :=
  MkState (_actions s) (_order s) (tk_vars s) (generated s) (warned s)
          (selected s) (tab_changed s) (bound s) (f (called s)).

(** The state of a freshly imported module: nothing registered. *)
Definition initial (tab : option pyclass) : State :=
  MkState ∅ [] ∅ [] [] tab [] ∅ [].

(** ** Exceptions and the monad

    The spec's error names, each with the Python exception the source
    raises for it. *)
Inductive exn :=
| InvalidPathError      (* ValueError: action paths must not start or end with / *)
| DuplicatePathError    (* RuntimeError: there's already an action with path ... *)
| ConfigurationError    (* TypeError: specify default or var *)
| InvalidChoiceError    (* ValueError: ... is not in choices *)
| NotFoundError         (* KeyError, from _actions[...] *)
| IndexError            (* choices[0] of an empty list *)
| AssertionError        (* a failed assert *)
| TclError              (* a variable that does not exist or does not hold a boolean *)
| AttributeError.       (* an attribute the action's kind does not have, or no such object *)

Definition python_class (e : exn) : string :=
  match e with
  | InvalidPathError | InvalidChoiceError => "ValueError"
  | DuplicatePathError => "RuntimeError"
  | ConfigurationError => "TypeError"
  | NotFoundError => "KeyError"
  | IndexError => "IndexError"
  | AssertionError => "AssertionError"
  | TclError => "TclError"
  | AttributeError => "AttributeError"
  end.

Inductive result (A : Type) :=
| Ok (a : A) (s : State)
| Raise (e : exn) (s : State).
Arguments Ok {A} a s.
Arguments Raise {A} e s.

Definition M (A : Type) : Type := State → result A.

Definition ret {A} (a : A) : M A := fun s => Ok a s.
Definition raise {A} (e : exn) : M A := fun s => Raise e s.
Definition bind {A B} (m : M A) (f : A → M B) : M B :=
  fun s => match m s with
           | Ok a s' => f a s'
           | Raise e s' => Raise e s'
           end.
Definition modify (f : State → State) : M unit := fun s => Ok tt (f s).
Definition gets {A} (f : State → A) : M A := fun s => Ok (f s) s.

Notation "'do' x <- m ; k" := (bind m (fun x => k))
  (at level 10, x name, m at level 100, k at level 200).
Notation "m ;; k" := (bind m (fun _ => k))
  (at level 100, k at level 200, right associativity).

(** The state a call leaves behind, whether it returned or raised. *)
Definition state_of {A} (r : result A) : State :=
  match r with
  | Ok _ s => s
  | Raise _ s => s
  end.

Definition raised {A} (r : result A) : option exn :=
  match r with
  | Ok _ _ => None
  | Raise e _ => Some e
  end.

(** ** The collaborators *)

(** [porcupine.get_main_window().event_generate(event, data=data)] *)
Definition event_generate (event data : string) : M unit :=
  modify (set_generated (fun l => l ++ [(event, data)])).

(** [tkinter.BooleanVar()] and [tkinter.StringVar()]: a new variable with the
    class's initial content and no trace. *)
Definition new_variable (init : value) : M nat :=
  fun s =>
    let v := fresh (dom (tk_vars s)) in
    Ok v (set_tk_vars <[v := MkCell init []]> s).

Definition BooleanVar : M nat := new_variable (VBool false).
Definition StringVar : M nat := new_variable (VStr "").

(** [var.get()]; tkinter raises [TclError] for a variable that is gone. *)
Definition var_get (v : nat) : M value :=
  fun s =>
    match tk_vars s !! v with
    | Some c => Ok (content c) s
    | None => Raise TclError s
    end.

(** [BooleanVar.get()] *)
Definition get_boolean (v : nat) : M bool :=
  do x <- var_get v;
  match x with
  | VBool b => ret b
  | VStr _ => raise TclError
  end.

(** [var.trace_add('write', self._var_set_check)] *)
Definition trace_add (v : nat) (self : string) : M unit :=
  fun s =>
    match tk_vars s !! v with
    | Some c => Ok tt (set_tk_vars <[v := MkCell (content c) (self :: traces c)]> s)
    | None => Raise TclError s
    end.

(** [warnings.warn(..., RuntimeWarning)] *)
Definition warn (w : Warning) : M unit :=
  modify (set_warned (fun l => l ++ [w])).

(** running a callback *)
Definition call (f : nat) : M unit :=
  modify (set_called (fun l => l ++ [f])).

(** An action object is reached through the registry entry of its path:
    the registry holds every object the module creates, under its path, and
    never drops one. *)
Definition get_object (self : string) : M Action.t :=
  fun s =>
    match _actions s !! self with
    | Some a => Ok a s
    | None => Raise AttributeError s
    end.

Definition attribute {A} (o : option A) : M A :=
  match o with
  | Some x => ret x
  | None => raise AttributeError
  end.

(** [value in choices], for the content of a variable *)
Definition value_in (x : value) (l : list string) : bool :=
  match x with
  | VStr t => bool_decide (t ∈ l)
  | VBool _ => false
  end.

(** ** The class [Action] *)

Definition Action_init (path : string) (kind : Kind) (cc : callback_or_choices)
    (binding : option string) (var : option nat) : M Action.t :=
  match kind with
  | command =>
      match cc with
      | Callback f => ret (Action.Make path kind binding true (Some f) None None)
      | _ => raise AssertionError
      end
  | choice =>
      match cc, var with
      | Choices l, Some v =>
          trace_add v path ;;
          ret (Action.Make path kind binding true None (Some v) (Some l))
      | _, _ => raise AssertionError
      end
  | yesno =>
      match var with
      | Some v => ret (Action.Make path kind binding true None (Some v) None)
      | None => raise AssertionError
      end
  end.

(** the setter of the property [enabled] *)
Definition Action_enabled_setter (self : string) (is_enabled : bool) : M unit :=
  do a <- get_object self;
  if bool_decide (Action._enabled a ≠ is_enabled) then
    modify (set_actions <[self := Action.with_enabled is_enabled a]>) ;;
    event_generate
      (if is_enabled then "<<ActionEnabled>>" else "<<ActionDisabled>>")
      (Action.path a)
  else ret tt.

Definition Action_var_set_check (self : string) : M unit :=
  do a <- get_object self;
  do v <- attribute (Action.var a);
  do value <- var_get v;
  do cs <- attribute (Action.choices a);
  if negb (value_in value cs) then
    warn (MkWarning (Action.path a) (Action.kind a) (Action._enabled a) value)
  else ret tt.

Fixpoint run_traces (l : list string) : M unit :=
  match l with
  | [] => ret tt
  | self :: l' => Action_var_set_check self ;; run_traces l'
  end.

(** [var.set(x)]: the write, then the write traces.  Setting a Tcl variable
    that does not exist creates it. *)
Definition var_set (v : nat) (x : value) : M unit :=
  do tr <- gets (fun s => match tk_vars s !! v with
                          | Some c => traces c
                          | None => []
                          end);
  modify (set_tk_vars <[v := MkCell x tr]>) ;;
  run_traces tr.

(** ** Registration *)

Definition enable_or_disable (action : string) (actual_tabtypes : list pyclass) : M unit :=
  do tab <- gets selected;
  Action_enabled_setter action (isinstance tab actual_tabtypes).

(** [get_tab_manager().bind('<<NotebookTabChanged>>', ..., add=True)] *)
Definition tab_manager_bind (h : string * list pyclass) : M unit :=
  modify (set_tab_changed (fun l => l ++ [h])).

(** [widget.bind_all(sequence, func, add=True)], for a key sequence that Tk
    accepts.  Tk raises [TclError] for a malformed sequence; key sequences
    are taken to be well formed throughout, and no statement below is about
    a registration that Tk refuses to bind. *)
Definition bind_all (sequence : string) (h : handler) : M unit :=
  modify (set_bound (fun m =>
    <[("all", sequence) := default [] (m !! ("all", sequence)) ++ [h]]> m)).

(** [widget.bind_class(className, sequence, func, add=False)], for a key
    sequence that Tk accepts, as for [bind_all]. *)
Definition bind_class (className sequence : string) (h : handler) : M unit :=
  modify (set_bound <[(className, sequence) := [h]]>).

(** [actual_tabtypes] of [_add_any_action]: [type(None)] for [None], the
    class itself otherwise. *)
Definition actual_tabtypes (tabtypes : list (option pyclass)) : list pyclass :=
  map (fun cls => match cls with None => NoneType | Some c => c end) tabtypes.

(** The shared constructor.  The action it returns is a reference to the
    object in the registry; here it is that object as it is at the return. *)
Definition _add_any_action (path : string) (kind : Kind) (cc : callback_or_choices)
    (binding : option string) (var : option nat)
    (tabtypes : option (list (option pyclass))) : M Action.t :=
  if startswith path slash || endswith path slash then raise InvalidPathError
  else
    do present <- gets (fun s => bool_decide (is_Some (_actions s !! path)));
    if (present : bool) then raise DuplicatePathError
    else
      do action <- Action_init path kind cc binding var;
      modify (fun s => set_order (fun l => l ++ [path])
                         (set_actions <[path := action]> s)) ;;
      event_generate "<<NewAction>>" path ;;
      match tabtypes with
      | Some tts =>
          enable_or_disable path (actual_tabtypes tts) ;;
          tab_manager_bind (path, actual_tabtypes tts)
      | None => ret tt
      end ;;
      match binding with
      | Some b =>
          if bool_decide (kind ∈ [command; yesno]) then
            bind_all b (BindCallback path kind) ;;
            bind_class "Text" b (BindCallback path kind)
          else raise AssertionError
      | None => ret tt
      end ;;
      get_object path.

Definition add_command (path : string) (callback : nat)
    (keyboard_binding : option string)
    (tabtypes : option (list (option pyclass))) : M Action.t :=
  _add_any_action path command (Callback callback) keyboard_binding None tabtypes.

(** The variable of a yes/no action: the first statement of [add_yesno]. *)
Definition add_yesno_var (default : option bool) (var : option nat) : M nat :=
  match var with
  | None =>
      match default with
      | None => raise ConfigurationError
      | Some d =>
          do v <- BooleanVar;
          var_set v (VBool d) ;;
          ret v
      end
  | Some v =>
      match default with
      | Some d => var_set v (VBool d)
      | None => ret tt
      end ;;
      ret v
  end.

Definition add_yesno (path : string) (default : option bool)
    (keyboard_binding : option string) (var : option nat)
    (tabtypes : option (list (option pyclass))) : M Action.t :=
  do var <- add_yesno_var default var;
  _add_any_action path yesno NoCallback keyboard_binding (Some var) tabtypes.

(** The variable of a choice action: the first statement of [add_choice]. *)
Definition add_choice_var (choices : list string) (default : option string)
    (var : option nat) : M nat :=
  match var with
  | None =>
      do default <-
        match default with
        | None =>
            match choices with
            | c :: _ => ret c
            | [] => raise IndexError
            end
        | Some d =>
            if bool_decide (d ∈ choices) then ret d
            else raise InvalidChoiceError
        end;
      do v <- StringVar;
      var_set v (VStr default) ;;
      ret v
  | Some v =>
      do current <- var_get v;
      if negb (value_in current choices) then raise InvalidChoiceError
      else
        match default with
        | Some d =>
            if bool_decide (d ∈ choices) then var_set v (VStr d)
            else raise InvalidChoiceError
        | None => ret tt
        end ;;
        ret v
  end.

Definition add_choice (path : string) (choices : list string)
    (default : option string) (var : option nat)
    (tabtypes : option (list (option pyclass))) : M Action.t :=
  do var <- add_choice_var choices default var;
  _add_any_action path choice (Choices choices) None (Some var) tabtypes.

(** ** Lookup *)

Definition get_action (action_path : string) : M Action.t :=
  fun s =>
    match _actions s !! rstrip action_path slash with
    | Some a => Ok a s
    | None => Raise NotFoundError s
    end.

Definition get_all_actions : M (list Action.t) :=
  gets (fun s => omap (fun p => _actions s !! p) (_order s)).

(** ** Events of the host *)

(** The closure [bind_callback] of [_add_any_action]. *)
Definition bind_callback (action : string) (kind : Kind) : M BreakOrNone :=
  do a <- get_object action;
  if Action._enabled a then
    match kind with
    | command => do f <- attribute (Action.callback a); call f
    | _ => ret tt
    end ;;
    match kind with
    | yesno =>
        do v <- attribute (Action.var a);
        do b <- get_boolean v;
        var_set v (VBool (negb b))
    | _ => ret tt
    end ;;
    ret Break
  else ret PyNone.

Definition run_handler (h : handler) : M BreakOrNone :=
  match h with
  | BindCallback a k => bind_callback a k
  | Foreign f r => call f ;; ret r
  end.

(** Tk runs the scripts bound to an event one after the other, tag by tag,
    until one of them answers ['break']. *)
Fixpoint run_scripts (hs : list handler) : M BreakOrNone :=
  match hs with
  | [] => ret PyNone
  | h :: hs' =>
      do r <- run_handler h;
      match r with
      | Break => ret Break
      | PyNone => run_scripts hs'
      end
  end.

(** A key sequence arrives at a widget with the given bind tags. *)
Definition key_event (bindtags : list string) (sequence : string) : M BreakOrNone :=
  do hs <- gets (fun s =>
    concat (map (fun tag => default [] (bound s !! (tag, sequence))) bindtags));
  run_scripts hs.

Fixpoint run_tab_changed (hs : list (string * list pyclass)) : M unit :=
  match hs with
  | [] => ret tt
  | (action, actual_tabtypes) :: hs' =>
      enable_or_disable action actual_tabtypes ;;
      run_tab_changed hs'
  end.

(** The tab manager selects another tab (or none) and generates
    [<<NotebookTabChanged>>]. *)
Definition notebook_tab_changed (tab : option pyclass) : M unit :=
  modify (set_selected tab) ;;
  do hs <- gets tab_changed;
  run_tab_changed hs.

(** ** Auxiliary definitions for the statements *)

(** ['/' * n] *)
Fixpoint times (c : ascii) (n : nat) : string :=
  match n with
  | O => EmptyString
  | S n' => String c (times c n')
  end.

Definition enabled_event (is_enabled : bool) : string :=
  if is_enabled then "<<ActionEnabled>>" else "<<ActionDisabled>>".

(** What the setter leaves behind when it is given a value that differs. *)
Definition switched (self : string) (a : Action.t) (is_enabled : bool) (s : State) : State :=
  set_generated (fun l => l ++ [(enabled_event is_enabled, Action.path a)])
    (set_actions <[self := Action.with_enabled is_enabled a]> s).

(** The write traces of a variable (none for a variable that does not
    exist). *)
Definition traces_of (s : State) (v : nat) : list string :=
  match tk_vars s !! v with
  | Some c => traces c
  | None => []
  end.

(** The warning the variable check of [self] gives for the content [x], if
    any, and the warnings of a list of checks. *)
Definition report (s : State) (x : value) (self : string) : list Warning :=
  match _actions s !! self with
  | Some a =>
      match Action.choices a with
      | Some cs =>
          if value_in x cs then []
          else [MkWarning (Action.path a) (Action.kind a) (Action._enabled a) x]
      | None => []
      end
  | None => []
  end.

Definition reports (s : State) (x : value) (tr : list string) : list Warning :=
  flat_map (report s x) tr.

(** What [var.set(x)] leaves behind. *)
Definition written (v : nat) (x : value) (s : State) : State :=
  set_warned (fun l => l ++ reports s x (traces_of s v))
    (set_tk_vars <[v := MkCell x (traces_of s v)]> s).

(** ** The invariant of the registry

    What the module keeps true of its state, whatever is registered and
    whatever the host does: an action is stored under its own path and has
    the attributes of its kind; the write traces of a variable are the
    checks of the choice actions on that variable, each once; the tab
    manager holds at most one [enable_or_disable] per action, and only for
    registered actions; no registered path starts or ends with ['/']. *)
Record wf (s : State) : Prop := WF {
  wf_valid_path : ∀ p, is_Some (_actions s !! p) →
    startswith p slash = false ∧ endswith p slash = false;
  wf_path : ∀ p a, _actions s !! p = Some a → Action.path a = p;
  wf_command : ∀ p a, _actions s !! p = Some a → Action.kind a = command →
    is_Some (Action.callback a);
  wf_yesno : ∀ p a, _actions s !! p = Some a → Action.kind a = yesno →
    is_Some (Action.var a);
  wf_choice : ∀ p a, _actions s !! p = Some a → Action.kind a = choice →
    ∃ v cs, Action.var a = Some v ∧ Action.choices a = Some cs ∧ p ∈ traces_of s v;
  wf_traces : ∀ v p, p ∈ traces_of s v →
    ∃ a cs, _actions s !! p = Some a ∧ Action.kind a = choice ∧
            Action.var a = Some v ∧ Action.choices a = Some cs;
  wf_traces_nodup : ∀ v, NoDup (traces_of s v);
  wf_tab_changed : ∀ h, h ∈ tab_changed s → is_Some (_actions s !! h.1);
  wf_tab_changed_nodup : NoDup (tab_changed s).*1
}.

(** Two states with the same actions up to their [enabled] flags, the same
    write traces and the same tab handlers: the invariant does not tell them
    apart. *)
Record same_skeleton (s s' : State) : Prop := SameSkeleton {
  sk_actions : ∀ p,
    Action.with_enabled true <$> _actions s' !! p =
    Action.with_enabled true <$> _actions s !! p;
  sk_traces : ∀ v, traces_of s' v = traces_of s v;
  sk_tab_changed : tab_changed s' = tab_changed s
}.

(** Everything but the variables and the warnings: the registry, the
    notifications, the tab manager, the key bindings, the callbacks run. *)
Record same_registry (s s' : State) : Prop := SameRegistry {
  sr_actions : _actions s' = _actions s;
  sr_order : _order s' = _order s;
  sr_generated : generated s' = generated s;
  sr_selected : selected s' = selected s;
  sr_tab_changed : tab_changed s' = tab_changed s;
  sr_bound : bound s' = bound s;
  sr_called : called s' = called s
}.

(** The value [enable_or_disable] gives to [enabled] at registration. *)
Definition initially_enabled (tabtypes : option (list (option pyclass)))
    (s : State) : bool :=
  match tabtypes with
  | Some tts => isinstance (selected s) (actual_tabtypes tts)
  | None => true
  end.

(** The scripts of a bind tag and key sequence after [bind_all] and
    [bind_class] of [_add_any_action]. *)
Definition bound_after (binding : option string) (h : handler)
    (m : gmap (string * string) (list handler)) : gmap (string * string) (list handler) :=
  match binding with
  | Some b =>
      <[("Text", b) := [h]]>
        (<[("all", b) := default [] (m !! ("all", b)) ++ [h]]> m)
  | None => m
  end.

(** The number of the next new variable, and the state with that variable
    in it. *)
Definition fresh_var (s : State) : nat := fresh (dom (tk_vars s)).

Definition allocated (v : nat) (init : value) (s : State) : State :=
  set_tk_vars <[v := MkCell init []]> s.

(** Every variable of [s] is in [s'] as it was. *)
Definition cells_kept (s s' : State) : Prop :=
  ∀ w c, tk_vars s !! w = Some c → tk_vars s' !! w = Some c.

(** The exception of the argument checks of [add_yesno] and [add_choice],
    which come before the checks of the path. *)
Definition yesno_check (default : option bool) (var : option nat) : option exn :=
  match var, default with
  | None, None => Some ConfigurationError
  | _, _ => None
  end.

Definition default_check (choices : list string) (default : option string) : option exn :=
  match default with
  | Some d => if bool_decide (d ∈ choices) then None else Some InvalidChoiceError
  | None => None
  end.

Definition choice_check (choices : list string) (default : option string)
    (var : option nat) (s : State) : option exn :=
  match var with
  | None =>
      match default, choices with
      | None, [] => Some IndexError
      | _, _ => default_check choices default
      end
  | Some v =>
      match tk_vars s !! v with
      | None => Some TclError
      | Some c =>
          if value_in (content c) choices then default_check choices default
          else Some InvalidChoiceError
      end
  end.

(** ** Outcomes *)

Definition value_of {A} (r : result A) : option A :=
  match r with
  | Ok a _ => Some a
  | Raise _ _ => None
  end.

Definition returns {A} (r : result A) : Prop := ∃ a s', r = Ok a s'.

(** A path that passes both checks of [_add_any_action]. *)
Definition valid_path (s : State) (p : string) : Prop :=
  startswith p slash = false ∧ endswith p slash = false ∧ _actions s !! p = None.

(** A registration returned an action of kind [k] that [get_action] finds
    under [p]. *)
Definition found_after (k : Kind) (p : string) (r : result Action.t) : Prop :=
  ∀ a s', r = Ok a s' →
    get_action p s' = Ok a s' ∧ Action.path a = p ∧ Action.kind a = k.

(** Trimming one trailing ['/'] at most: the reading of [get_action] that
    stops after one character. *)
Fixpoint trim_single_slash (p : string) : string :=
  match p with
  | EmptyString => EmptyString
  | String a EmptyString => if Ascii.eqb a slash then EmptyString else p
  | String a p' => String a (trim_single_slash p')
  end.

(** Membership of the focused tab's own class in the filter, without regard
    to its ancestors. *)
Definition type_in_filter (tab : option pyclass) (tabtypes : list (option pyclass)) : bool :=
  bool_decide (type_of tab ∈ actual_tabtypes tabtypes).

(** ** Sample inputs

    [tabs.Tab] and a class of tabs derived from it. *)
Definition Tab : pyclass := PyClass "Tab" ["Frame"; "Widget"; "object"].
Definition FileTab : pyclass := PyClass "FileTab" ["Tab"; "Frame"; "Widget"; "object"].

(** A registry with the command ["a/b"]. *)
Definition registry_ab : State :=
  state_of (add_command "a/b" 0 None None (initial None)).

(** A registry with the yes/no action ["View/Wrap"], created with a variable
    of its own (number 0) that holds [False]. *)
Definition registry_wrap : State :=
  state_of (add_yesno "View/Wrap" (Some false) None None None (initial None)).

(** The value [add_choice] resolves for the variable of the new action. *)
Definition initial_choice (choices : list string) (default : option string)
    (var : option nat) (s : State) : option value :=
  match default, var with
  | Some d, _ => Some (VStr d)
  | None, None => VStr <$> head choices
  | None, Some v => content <$> tk_vars s !! v
  end.

(** A registry with the choice action ["View/Theme"], created with a
    variable of its own (number 0) that holds ["dark"]. *)
Definition registry_theme : State :=
  state_of (add_choice "View/Theme" ["dark"; "light"] None None None (initial None)).

(** The warnings of a list that name the action [p]. *)
Definition naming (p : string) (ws : list Warning) : list Warning :=
  filter (fun w => w_path w = p) ws.

(** A registry with the command ["File/Close"], bound to a key and enabled
    for tabs only, while no tab is selected: the command is disabled. *)
Definition registry_close : State :=
  state_of (add_command "File/Close" 7 (Some "<Control-w>") (Some [Some Tab])
              (initial None)).

(** The same while a file tab is selected: the command is enabled. *)
Definition registry_close_tab : State :=
  state_of (add_command "File/Close" 7 (Some "<Control-w>") (Some [Some Tab])
              (initial (Some FileTab))).

(** A registry with the yes/no action ["View/Wrap"] bound to a key. *)
Definition registry_wrap_key : State :=
  state_of (add_yesno "View/Wrap" (Some false) (Some "<Alt-z>") None None (initial None)).

(** What one [enable_or_disable] closure does when the tab [tab] is
    selected, and the events it generates. *)
Definition retab (tab : option pyclass) (s : State) (h : string * list pyclass) : State :=
  match _actions s !! h.1 with
  | Some a =>
      if bool_decide (Action._enabled a = isinstance tab h.2) then s
      else switched h.1 a (isinstance tab h.2) s
  | None => s
  end.

Definition retab_events (tab : option pyclass) (s : State)
    (h : string * list pyclass) : list (string * string) :=
  match _actions s !! h.1 with
  | Some a =>
      if bool_decide (Action._enabled a = isinstance tab h.2) then []
      else [(enabled_event (isinstance tab h.2), Action.path a)]
  | None => []
  end.

(** The events of a list that carry the path [p]. *)
Definition carrying (p : string) (evs : list (string * string)) : list (string * string) :=
  filter (fun e => e.2 = p) evs.

(** A registration with the filter [tts] returned an action whose flag is
    the [isinstance] test of the selected tab, after one [<<NewAction>>]
    and, if the action got disabled, one [<<ActionDisabled>>]; its
    [enable_or_disable] is bound to the tab manager. *)
Definition enabled_at_registration (tts : list (option pyclass)) (s : State)
    (p : string) (r : result Action.t) : Prop :=
  ∀ a s', r = Ok a s' →
    Action._enabled a = isinstance (selected s) (actual_tabtypes tts) ∧
    (p, actual_tabtypes tts) ∈ tab_changed s' ∧
    generated s' = generated s ++ ("<<NewAction>>", p) ::
      (if isinstance (selected s) (actual_tabtypes tts) then []
       else [("<<ActionDisabled>>", p)]).

(** ** The states the module can be in

    One step is a call of an entry point, returning or raising, or something
    the host does: a write to a variable, a new variable, a write to
    [enabled], a change of the selected tab, a key event, a binding of
    somebody else's script. *)
Inductive step (s : State) : State → Prop :=
| step_add_command p cb kb tts : step s (state_of (add_command p cb kb tts s))
| step_add_yesno p dflt kb var tts : step s (state_of (add_yesno p dflt kb var tts s))
| step_add_choice p cs dflt var tts : step s (state_of (add_choice p cs dflt var tts s))
| step_var_set v x : step s (state_of (var_set v x s))
| step_new_variable init : step s (state_of (new_variable init s))
| step_enabled p b : step s (state_of (Action_enabled_setter p b s))
| step_tab_changed tab : step s (state_of (notebook_tab_changed tab s))
| step_key_event bindtags sequence : step s (state_of (key_event bindtags sequence s))
| step_bind tag sequence f r :
    step s (set_bound (fun m =>
      <[(tag, sequence) := default [] (m !! (tag, sequence)) ++ [Foreign f r]]> m) s).

Inductive reachable : State → Prop :=
| reachable_initial tab : reachable (initial tab)
| reachable_step s s' : reachable s → step s s' → reachable s'.

(** Two choice actions on one variable (number 0, holding ["dark"]). *)
Definition registry_two_themes : State :=
  state_of (add_choice "Edit/Theme" ["dark"; "blue"] None (Some 0) None registry_theme).

(** The bind tags of a text widget. *)
Definition text_widget : list string := [".editor"; "Text"; "."; "all"].

(** Nothing is unbound or unregistered from [s] to [s']. *)
Definition keeps (s s' : State) : Prop :=
  (∀ h, h ∈ tab_changed s → h ∈ tab_changed s') ∧
  (∀ q, is_Some (_actions s !! q) → is_Some (_actions s' !! q)).

(** ** Definitions for the further properties *)

(** The list [get_all_actions] returns. *)
Definition all_actions (s : State) : list Action.t :=
  omap (fun p => _actions s !! p) (_order s).

(** The insertion order lists the keys of the registry, each once. *)
Record ordered (s : State) : Prop := Ordered {
  ord_nodup : NoDup (_order s);
  ord_keys : ∀ p, p ∈ _order s ↔ is_Some (_actions s !! p)
}.

(** The exception of the two checks of the path in [_add_any_action]. *)
Definition path_check (s : State) (p : string) : option exn :=
  if startswith p slash || endswith p slash then Some InvalidPathError
  else if bool_decide (is_Some (_actions s !! p)) then Some DuplicatePathError
  else None.

(** Every action of [s] is in [s'] under the same path, the same but for
    its [enabled] flag. *)
Definition extends (s s' : State) : Prop :=
  ∀ p a, _actions s !! p = Some a →
    ∃ a', _actions s' !! p = Some a' ∧
          Action.with_enabled true a' = Action.with_enabled true a.

(** The same keys in the same order. *)
Definition same_keys (s s' : State) : Prop :=
  _order s' = _order s ∧
  ∀ p, is_Some (_actions s' !! p) ↔ is_Some (_actions s !! p).

(** A registration returned an action that [get_all_actions] lists last,
    after the actions it listed before, and no other entry of the registry
    changed. *)
Definition appended (s : State) (p : string) (r : result Action.t) : Prop :=
  ∀ a s', r = Ok a s' →
    get_all_actions s' = Ok (all_actions s ++ [a]) s' ∧
    ∀ q, q ≠ p → _actions s' !! q = _actions s !! q.

(** * Properties *)

(** Closed decidable facts, by evaluation. *)
Ltac by_decide := refine (bool_decide_unpack _ _); vm_compute; exact I.

Example rstrip_ex1 : rstrip "a/b//" slash = "a/b". Proof. reflexivity. Qed.
Example rstrip_ex2 : rstrip "/" slash = "". Proof. reflexivity. Qed.
Example rstrip_ex3 : rstrip "a/b" slash = "a/b". Proof. reflexivity. Qed.
Example endswith_ex : endswith "x/" slash = true ∧ endswith "" slash = false.
Proof. split; reflexivity. Qed.

(** A write that neither of two actions on the variable accepts gives one
    warning for each, most recent trace first. *)
Example shared_variable_two_warnings :
  warned (state_of (var_set 0 (VStr "green") registry_two_themes)) =
    [MkWarning "Edit/Theme" choice true (VStr "green");
     MkWarning "View/Theme" choice true (VStr "green")].
Proof. vm_compute. reflexivity. Qed.

(** The key of a disabled command reaches no callback and is not
    intercepted; the key of an enabled one runs the callback once, from the
    binding of the class [Text], and is intercepted. *)
Example key_of_disabled_command :
  key_event text_widget "<Control-w>" registry_close = Ok PyNone registry_close.
Proof. vm_compute. reflexivity. Qed.

Example key_of_enabled_command :
  key_event text_widget "<Control-w>" registry_close_tab =
    Ok Break (set_called (fun l => l ++ [7]) registry_close_tab).
Proof. vm_compute. reflexivity. Qed.

Example get_all_actions_in_order :
  map Action.path <$> value_of (get_all_actions registry_two_themes) =
    Some ["View/Theme"; "Edit/Theme"].
Proof. vm_compute. reflexivity. Qed.


(** ** Strings *)

Lemma endswith_cons a b s c :
  endswith (String a (String b s)) c = endswith (String b s) c.
Proof. reflexivity. Qed.

Lemma rstrip_id s c : endswith s c = false → rstrip s c = s.
Proof.
  induction s as [|a [|b s'] IH]; intros H; [reflexivity | |].
  - simpl in *. now rewrite H.
  - rewrite endswith_cons in H.
    change (rstrip (String a (String b s')) c)
      with (match rstrip (String b s') c with
            | EmptyString => if Ascii.eqb a c then EmptyString else String a EmptyString
            | r => String a r
            end).
    now rewrite (IH H).
Qed.

Lemma rstrip_times c n : rstrip (times c n) c = EmptyString.
Proof.
  induction n as [|n IH]; [reflexivity|].
  simpl. rewrite IH. now rewrite Ascii.eqb_refl.
Qed.

Lemma rstrip_app_times q c n :
  endswith q c = false → rstrip (q +:+ times c n) c = q.
Proof.
  induction q as [|a [|b q'] IH]; intros H.
  - apply rstrip_times.
  - change (rstrip (String a EmptyString +:+ times c n) c)
      with (match rstrip (times c n) c with
            | EmptyString => if Ascii.eqb a c then EmptyString else String a EmptyString
            | r => String a r
            end).
    rewrite rstrip_times. simpl in H. now rewrite H.
  - rewrite endswith_cons in H. specialize (IH H).
    change (rstrip (String a (String b q') +:+ times c n) c)
      with (match rstrip (String b q' +:+ times c n) c with
            | EmptyString => if Ascii.eqb a c then EmptyString else String a EmptyString
            | r => String a r
            end).
    now rewrite IH.
Qed.

Lemma endswith_rstrip s c : endswith (rstrip s c) c = false.
Proof.
  induction s as [|a s IH]; [reflexivity|].
  simpl. destruct (rstrip s c) as [|b r] eqn:E.
  - destruct (Ascii.eqb a c) eqn:Ea; [reflexivity|]. simpl. exact Ea.
  - rewrite endswith_cons. exact IH.
Qed.

Lemma rstrip_split s c : ∃ n, s = rstrip s c +:+ times c n.
Proof.
  induction s as [|a s [n IH]]; [by exists 0|].
  simpl. destruct (rstrip s c) as [|b r] eqn:E.
  - destruct (Ascii.eqb a c) eqn:Ea.
    + apply Ascii.eqb_eq in Ea. subst a. exists (S n). simpl. by rewrite IH at 1.
    + exists n. simpl. by rewrite IH at 1.
  - exists n. simpl. by rewrite IH at 1.
Qed.

(** ** The [enabled] property *)

Lemma enabled_setter_same s self a :
  _actions s !! self = Some a →
  Action_enabled_setter self (Action._enabled a) s = Ok tt s.
Proof.
  intros Ha. unfold Action_enabled_setter, bind, get_object. rewrite Ha.
  rewrite bool_decide_eq_false_2; [reflexivity | tauto].
Qed.

Lemma enabled_setter_differs s self a b :
  _actions s !! self = Some a → Action._enabled a ≠ b →
  Action_enabled_setter self b s = Ok tt (switched self a b s).
Proof.
  intros Ha Hb. unfold Action_enabled_setter, bind, get_object. rewrite Ha.
  rewrite bool_decide_eq_true_2 by exact Hb.
  unfold modify, event_generate, modify, switched, enabled_event.
  by destruct b.
Qed.

Lemma enabled_setter_spec s self a b :
  _actions s !! self = Some a →
  Action_enabled_setter self b s =
    Ok tt (if bool_decide (Action._enabled a = b) then s else switched self a b s).
Proof.
  intros Ha. case_bool_decide as Hb.
  - subst b. by apply enabled_setter_same.
  - by apply enabled_setter_differs.
Qed.

(** ** Variables and their write traces *)

Lemma set_warned_set_warned f g s :
  set_warned g (set_warned f s) = set_warned (fun l => g (f l)) s.
Proof. reflexivity. Qed.

Lemma var_set_check_spec s self a v c cs :
  _actions s !! self = Some a → Action.var a = Some v →
  Action.choices a = Some cs → tk_vars s !! v = Some c →
  Action_var_set_check self s =
    Ok tt (set_warned (fun l => l ++ report s (content c) self) s).
Proof.
  intros Ha Hv Hcs Hc.
  unfold Action_var_set_check, bind, get_object, attribute, var_get, report.
  rewrite Ha, Hv, Hcs. unfold ret. rewrite Hc.
  destruct (value_in (content c) cs); simpl.
  - unfold ret. destruct s; unfold set_warned; simpl. by rewrite app_nil_r.
  - reflexivity.
Qed.

Lemma run_traces_spec tr : ∀ s v c,
  tk_vars s !! v = Some c →
  (∀ q, q ∈ tr → ∃ a, _actions s !! q = Some a ∧ Action.var a = Some v ∧
                      is_Some (Action.choices a)) →
  run_traces tr s = Ok tt (set_warned (fun l => l ++ reports s (content c) tr) s).
Proof.
  induction tr as [|q tr IH]; intros s v c Hc Htr.
  - simpl. unfold ret, reports. simpl.
    destruct s; unfold set_warned; simpl. by rewrite app_nil_r.
  - destruct (Htr q) as (a & Ha & Hv & [cs Hcs]); [by left|].
    simpl. unfold bind.
    rewrite (var_set_check_spec s q a v c cs Ha Hv Hcs Hc).
    rewrite (IH _ v c); [| exact Hc |].
    + rewrite set_warned_set_warned. unfold reports. simpl.
      destruct s; unfold set_warned; simpl. f_equal.
      by rewrite app_assoc.
    + intros q' Hq'. apply Htr. by right.
Qed.

Lemma var_set_spec s v x :
  (∀ q, q ∈ traces_of s v → ∃ a, _actions s !! q = Some a ∧
        Action.var a = Some v ∧ is_Some (Action.choices a)) →
  var_set v x s = Ok tt (written v x s).
Proof.
  intros Htr. unfold var_set, bind, gets, modify.
  fold (traces_of s v).
  rewrite (run_traces_spec _ _ v (MkCell x (traces_of s v))).
  - reflexivity.
  - simpl. apply lookup_insert_eq.
  - exact Htr.
Qed.

Lemma var_set_wf s v x : wf s → var_set v x s = Ok tt (written v x s).
Proof.
  intros Hwf. apply var_set_spec. intros q Hq.
  destruct (wf_traces s Hwf v q Hq) as (a & cs & Ha & _ & Hv & Hcs).
  exists a. by rewrite Hcs.
Qed.

Lemma traces_of_written v x s w : traces_of (written v x s) w = traces_of s w.
Proof.
  unfold traces_of at 1. simpl.
  destruct (decide (v = w)) as [->|Hne].
  - by rewrite lookup_insert_eq.
  - by rewrite lookup_insert_ne.
Qed.

Lemma content_written v x s :
  content <$> tk_vars (written v x s) !! v = Some x.
Proof. simpl. by rewrite lookup_insert_eq. Qed.

Lemma written_other v x s w :
  v ≠ w → tk_vars (written v x s) !! w = tk_vars s !! w.
Proof. intros Hne. simpl. by rewrite lookup_insert_ne. Qed.

(** ** Frames *)

Lemma same_skeleton_refl s : same_skeleton s s.
Proof. by constructor. Qed.

Lemma same_skeleton_trans s1 s2 s3 :
  same_skeleton s1 s2 → same_skeleton s2 s3 → same_skeleton s1 s3.
Proof.
  intros [A1 T1 H1] [A2 T2 H2]. constructor.
  - intros p. by rewrite A2, A1.
  - intros v. by rewrite T2, T1.
  - by rewrite H2, H1.
Qed.

Lemma same_registry_refl s : same_registry s s.
Proof. by constructor. Qed.

Lemma same_registry_trans s1 s2 s3 :
  same_registry s1 s2 → same_registry s2 s3 → same_registry s1 s3.
Proof.
  intros [] []. constructor; congruence.
Qed.

Lemma same_registry_written v x s : same_registry s (written v x s).
Proof. by constructor. Qed.

Lemma same_skeleton_written v x s : same_skeleton s (written v x s).
Proof.
  constructor; [done | | done]. intros w. apply traces_of_written.
Qed.

Lemma same_skeleton_switched self a b s :
  _actions s !! self = Some a → same_skeleton s (switched self a b s).
Proof.
  intros Ha. constructor; [| done | done].
  intros p. simpl. destruct (decide (self = p)) as [->|Hne].
  - rewrite lookup_insert_eq, Ha. reflexivity.
  - by rewrite lookup_insert_ne.
Qed.

Lemma skeleton_lookup s s' p a' :
  same_skeleton s s' → _actions s' !! p = Some a' →
  ∃ a, _actions s !! p = Some a ∧
       Action.with_enabled true a' = Action.with_enabled true a.
Proof.
  intros Hsk Ha'. pose proof (sk_actions _ _ Hsk p) as E.
  rewrite Ha' in E. destruct (_actions s !! p) as [a|]; [|discriminate].
  exists a. split; [done|]. simpl in E. congruence.
Qed.

Lemma with_enabled_inj_fields b a a' :
  Action.with_enabled b a' = Action.with_enabled b a →
  Action.path a' = Action.path a ∧ Action.kind a' = Action.kind a ∧
  Action.binding a' = Action.binding a ∧ Action.callback a' = Action.callback a ∧
  Action.var a' = Action.var a ∧ Action.choices a' = Action.choices a.
Proof. unfold Action.with_enabled. intros E. by inversion E. Qed.

Lemma wf_same_skeleton s s' : wf s → same_skeleton s s' → wf s'.
Proof.
  intros Hwf Hsk.
  assert (Hback : ∀ p a, _actions s !! p = Some a →
            ∃ a', _actions s' !! p = Some a' ∧
                  Action.with_enabled true a' = Action.with_enabled true a).
  { intros p a Ha. pose proof (sk_actions _ _ Hsk p) as E. rewrite Ha in E.
    destruct (_actions s' !! p) as [a'|]; [|discriminate].
    exists a'. split; [done|]. simpl in E. congruence. }
  constructor.
  - intros p [a' Ha']. destruct (skeleton_lookup _ _ _ _ Hsk Ha') as (a & Ha & E).
    eapply wf_valid_path; eauto.
  - intros p a' Ha'. destruct (skeleton_lookup _ _ _ _ Hsk Ha') as (a & Ha & E).
    apply with_enabled_inj_fields in E as (-> & _). by eapply wf_path.
  - intros p a' Ha' Hk. destruct (skeleton_lookup _ _ _ _ Hsk Ha') as (a & Ha & E).
    apply with_enabled_inj_fields in E as (_ & Ek & _ & -> & _).
    eapply wf_command; eauto. congruence.
  - intros p a' Ha' Hk. destruct (skeleton_lookup _ _ _ _ Hsk Ha') as (a & Ha & E).
    apply with_enabled_inj_fields in E as (_ & Ek & _ & _ & -> & _).
    eapply wf_yesno; eauto. congruence.
  - intros p a' Ha' Hk. destruct (skeleton_lookup _ _ _ _ Hsk Ha') as (a & Ha & E).
    apply with_enabled_inj_fields in E as (_ & Ek & _ & _ & -> & ->).
    rewrite Ek in Hk.
    destruct (wf_choice s Hwf p a Ha Hk) as (v & cs & ? & ? & ?).
    exists v, cs. by rewrite (sk_traces _ _ Hsk).
  - intros v p Hp. rewrite (sk_traces _ _ Hsk) in Hp.
    destruct (wf_traces s Hwf v p Hp) as (a & cs & Ha & Hk & Hv & Hcs).
    destruct (Hback p a Ha) as (a' & Ha' & E).
    apply with_enabled_inj_fields in E as (_ & Ek & _ & _ & Ev & Ec).
    exists a', cs. repeat split; congruence.
  - intros v. rewrite (sk_traces _ _ Hsk). by apply wf_traces_nodup.
  - intros h Hh. rewrite (sk_tab_changed _ _ Hsk) in Hh.
    destruct (wf_tab_changed s Hwf h Hh) as [a Ha].
    destruct (Hback _ a Ha) as (a' & Ha' & _). by exists a'.
  - rewrite (sk_tab_changed _ _ Hsk). by apply wf_tab_changed_nodup.
Qed.

Lemma wf_initial tab : wf (initial tab).
Proof.
  constructor; simpl; try (intros; simplify_map_eq; fail).
  - intros p [a Ha]. by rewrite lookup_empty in Ha.
  - intros v p Hp. unfold traces_of in Hp. simpl in Hp.
    rewrite lookup_empty in Hp. by apply elem_of_nil in Hp.
  - intros v. unfold traces_of. simpl. rewrite lookup_empty. constructor.
  - intros h Hh. by apply elem_of_nil in Hh.
  - constructor.
Qed.

(** ** The shared constructor *)

Lemma Action_init_Ok p k cc b var s a s1 :
  Action_init p k cc b var s = Ok a s1 →
  Action.path a = p ∧ Action.kind a = k ∧ Action.binding a = b ∧
  Action._enabled a = true ∧
  match k with
  | command => ∃ f, cc = Callback f ∧ Action.callback a = Some f ∧ s1 = s
  | yesno => ∃ v, var = Some v ∧ Action.var a = Some v ∧ s1 = s
  | choice => ∃ l v c, cc = Choices l ∧ var = Some v ∧ tk_vars s !! v = Some c ∧
      Action.var a = Some v ∧ Action.choices a = Some l ∧
      s1 = set_tk_vars <[v := MkCell (content c) (p :: traces c)]> s
  end.
Proof.
  unfold Action_init. destruct k.
  - destruct cc; unfold ret, raise; intros E; inversion E; subst; simpl.
    repeat split; eauto.
  - destruct cc as [f|l|]; try (unfold raise; intros E; discriminate E).
    destruct var as [v|]; [|unfold raise; intros E; discriminate E].
    unfold bind, trace_add, ret.
    destruct (tk_vars s !! v) as [c|] eqn:Hc; [|intros E; discriminate E].
    intros E; inversion E; subst; simpl. repeat split; eauto 10.
  - destruct var as [v|]; unfold ret, raise; intros E; inversion E; subst; simpl.
    repeat split; eauto.
Qed.

Lemma add_any_action_invalid_path p k cc b var tts s :
  startswith p slash || endswith p slash = true →
  _add_any_action p k cc b var tts s = Raise InvalidPathError s.
Proof. intros H. unfold _add_any_action. by rewrite H. Qed.

Lemma add_any_action_duplicate p k cc b var tts s :
  startswith p slash || endswith p slash = false →
  is_Some (_actions s !! p) →
  _add_any_action p k cc b var tts s = Raise DuplicatePathError s.
Proof.
  intros H Hp. unfold _add_any_action. rewrite H.
  unfold bind, gets. by rewrite bool_decide_eq_true_2.
Qed.

Lemma Action_init_frame p k cc b var s a s1 :
  Action_init p k cc b var s = Ok a s1 →
  same_registry s s1 ∧ warned s1 = warned s.
Proof.
  intros H. apply Action_init_Ok in H as (_ & _ & _ & _ & H).
  destruct k.
  - destruct H as (? & _ & _ & ->). split; [apply same_registry_refl | done].
  - destruct H as (? & ? & ? & _ & _ & _ & _ & _ & ->). by split.
  - destruct H as (? & _ & _ & ->). split; [apply same_registry_refl | done].
Qed.

Lemma add_any_action_Ok p k cc b var tts s a s' :
  _add_any_action p k cc b var tts s = Ok a s' →
  ∃ a0 s1,
    startswith p slash = false ∧ endswith p slash = false ∧
    _actions s !! p = None ∧
    Action_init p k cc b var s = Ok a0 s1 ∧
    a = Action.with_enabled (initially_enabled tts s) a0 ∧
    _actions s' = <[p := a]> (_actions s) ∧
    _order s' = _order s ++ [p] ∧
    tk_vars s' = tk_vars s1 ∧
    generated s' = generated s ++ ("<<NewAction>>", p) ::
       (if initially_enabled tts s then [] else [("<<ActionDisabled>>", p)]) ∧
    warned s' = warned s ∧ selected s' = selected s ∧
    tab_changed s' = tab_changed s ++
       match tts with Some l => [(p, actual_tabtypes l)] | None => [] end ∧
    bound s' = bound_after b (BindCallback p k) (bound s) ∧
    called s' = called s.
Proof.
  unfold _add_any_action.
  destruct (startswith p slash || endswith p slash) eqn:Hp; [discriminate|].
  apply orb_false_elim in Hp as [Hs He].
  unfold bind at 1; unfold gets at 1.
  case_bool_decide as Hreg; [discriminate|].
  assert (Hnone : _actions s !! p = None).
  { destruct (_actions s !! p) eqn:E; [|done]. exfalso. apply Hreg. eauto. }
  unfold bind at 1.
  destruct (Action_init p k cc b var s) as [a0 s1|] eqn:Hinit; [|discriminate].
  destruct (Action_init_Ok _ _ _ _ _ _ _ _ Hinit) as (Hpath & Hkind & Hbind & Hen & Hs1).
  destruct (Action_init_frame _ _ _ _ _ _ _ _ Hinit) as [[F1 F2 F3 F4 F5 F6 F7] F8].
  clear Hs1 Hinit.
  intros H. exists a0, s1.
  do 4 (split; [done|]).
  revert H. unfold bind at 1. unfold modify at 1.
  unfold bind at 1. unfold event_generate at 1, modify at 1.
  set (s2 := set_generated _ _).
  assert (H2 : _actions s2 !! p = Some a0) by (simpl; apply lookup_insert_eq).
  unfold bind at 1.
  assert (Htts : ∃ s3,
    match tts with
    | Some tts0 =>
        enable_or_disable p (actual_tabtypes tts0) ;; tab_manager_bind (p, actual_tabtypes tts0)
    | None => ret ()
    end s2 = Ok tt s3 ∧
    _actions s3 = <[p := Action.with_enabled (initially_enabled tts s) a0]> (_actions s) ∧
    _order s3 = _order s ++ [p] ∧ tk_vars s3 = tk_vars s1 ∧
    generated s3 = generated s ++ ("<<NewAction>>", p) ::
       (if initially_enabled tts s then [] else [("<<ActionDisabled>>", p)]) ∧
    warned s3 = warned s ∧ selected s3 = selected s ∧
    tab_changed s3 = tab_changed s ++
       match tts with Some l => [(p, actual_tabtypes l)] | None => [] end ∧
    bound s3 = bound s ∧ called s3 = called s).
  { destruct tts as [tts0|]; simpl.
    - unfold bind, enable_or_disable, bind, gets.
      rewrite (enabled_setter_spec s2 p a0 _ H2).
      eexists. split; [reflexivity|].
      rewrite Hen. replace (selected s2) with (selected s) by (simpl; congruence).
      destruct (isinstance (selected s) (actual_tabtypes tts0)); simpl;
        rewrite ?F1, ?F2, ?F3, ?F4, ?F5, ?F6, ?F7, ?F8.
      + repeat split; try done.
        f_equal. destruct a0; unfold Action.with_enabled; simpl in *; congruence.
      + rewrite insert_insert_eq, Hpath. repeat split; try done.
        by rewrite <- app_assoc.
    - eexists. split; [reflexivity|]. simpl.
      rewrite ?F1, ?F2, ?F3, ?F4, ?F5, ?F6, ?F7, ?F8.
      repeat split; try done; [| by rewrite app_nil_r].
      f_equal. destruct a0; unfold Action.with_enabled; simpl in *; congruence. }
  destruct Htts as (s3 & -> & G1 & G2 & G3 & G4 & G5 & G6 & G7 & G8 & G9).
  unfold bind at 1.
  destruct b as [key|].
  - case_bool_decide; [|discriminate].
    unfold bind, bind_all, bind_class, modify, get_object. simpl.
    rewrite G1, lookup_insert_eq. intros E; inversion E; subst; simpl.
    rewrite G8. repeat split; done.
  - unfold ret, get_object. rewrite G1, lookup_insert_eq.
    intros E; inversion E; subst; simpl. repeat split; done.
Qed.

Lemma Action_init_Raise p k cc b var s e s' :
  Action_init p k cc b var s = Raise e s' → s' = s.
Proof.
  unfold Action_init.
  destruct k, cc, var; unfold ret, raise, bind, trace_add;
    try (intros E; inversion E; done).
  destruct (tk_vars s !! n); intros E; inversion E; done.
Qed.

Lemma add_any_action_succeeds p k cc b var tts s a0 s1 :
  startswith p slash = false → endswith p slash = false →
  _actions s !! p = None →
  Action_init p k cc b var s = Ok a0 s1 →
  b = None ∨ k ≠ choice →
  ∃ a s', _add_any_action p k cc b var tts s = Ok a s'.
Proof.
  intros Hs He Hnone Hinit Hb.
  unfold _add_any_action. rewrite Hs, He. simpl.
  unfold bind at 1; unfold gets at 1.
  rewrite bool_decide_eq_false_2 by (rewrite Hnone; by intros [? ?]).
  unfold bind at 1. rewrite Hinit.
  unfold bind at 1. unfold modify at 1.
  unfold bind at 1. unfold event_generate at 1, modify at 1.
  set (s2 := set_generated _ _).
  assert (H2 : _actions s2 !! p = Some a0) by (simpl; apply lookup_insert_eq).
  unfold bind at 1.
  assert (Htts : ∃ s3,
    match tts with
    | Some tts0 =>
        enable_or_disable p (actual_tabtypes tts0) ;;
        tab_manager_bind (p, actual_tabtypes tts0)
    | None => ret ()
    end s2 = Ok tt s3 ∧ is_Some (_actions s3 !! p)).
  { destruct tts as [tts0|]; simpl.
    - unfold bind, enable_or_disable, bind, gets.
      rewrite (enabled_setter_spec s2 p a0 _ H2).
      eexists. split; [reflexivity|].
      case_bool_decide; simpl; [by rewrite lookup_insert_eq|].
      rewrite lookup_insert_eq. eauto.
    - eexists. split; [reflexivity|]. eauto. }
  destruct Htts as (s3 & -> & [a3 H3]).
  unfold bind at 1.
  destruct b as [key|].
  - rewrite bool_decide_eq_true_2.
    + unfold bind, bind_all, bind_class, modify, get_object. simpl.
      rewrite H3. eauto.
    + destruct Hb as [?|Hk]; [discriminate|].
      destruct k; [by left | done | right; by left].
  - unfold ret, get_object. rewrite H3. eauto.
Qed.

Lemma add_any_action_Raise p k cc b var tts s e s' :
  _add_any_action p k cc b var tts s = Raise e s' →
  b = None ∨ k ≠ choice →
  s' = s ∧
  ((e = InvalidPathError ∧ startswith p slash || endswith p slash = true) ∨
   (e = DuplicatePathError ∧ startswith p slash || endswith p slash = false ∧
    is_Some (_actions s !! p)) ∨
   (startswith p slash || endswith p slash = false ∧ _actions s !! p = None ∧
    Action_init p k cc b var s = Raise e s)).
Proof.
  intros H Hb.
  destruct (startswith p slash || endswith p slash) eqn:Hp.
  - rewrite add_any_action_invalid_path in H by done.
    inversion H; subst. split; [done|]. by left.
  - destruct (_actions s !! p) as [a|] eqn:Hreg.
    + rewrite add_any_action_duplicate in H by (rewrite ?Hreg; eauto).
      inversion H; subst. split; [done|]. right; left. eauto.
    + destruct (Action_init p k cc b var s) as [a0 s1|e1 s1] eqn:Hinit.
      * apply orb_false_elim in Hp as [Hs He].
        destruct (add_any_action_succeeds p k cc b var tts s a0 s1)
          as (a & s'' & E); try done.
        rewrite E in H. discriminate.
      * pose proof (Action_init_Raise _ _ _ _ _ _ _ _ Hinit) as ->.
        revert H. unfold _add_any_action. rewrite Hp.
        unfold bind at 1; unfold gets at 1.
        rewrite bool_decide_eq_false_2 by (rewrite Hreg; by intros [? ?]).
        unfold bind at 1. rewrite Hinit.
        intros E; inversion E; subst. split; [done|]. right; right. done.
Qed.

(** ** The invariant is kept *)

Lemma not_traced_unregistered s p w :
  wf s → _actions s !! p = None → p ∉ traces_of s w.
Proof.
  intros Hwf Hnone Hin.
  destruct (wf_traces s Hwf w p Hin) as (a & _ & Ha & _). congruence.
Qed.

Lemma add_any_action_traces p k cc b var tts s a s' :
  _add_any_action p k cc b var tts s = Ok a s' →
  match k with
  | choice => ∃ v l, var = Some v ∧ cc = Choices l ∧
      Action.var a = Some v ∧ Action.choices a = Some l ∧
      traces_of s' v = p :: traces_of s v ∧
      ∀ w, w ≠ v → traces_of s' w = traces_of s w
  | _ => ∀ w, traces_of s' w = traces_of s w
  end.
Proof.
  intros H. apply add_any_action_Ok in H
    as (a0 & s1 & _ & _ & _ & Hinit & -> & _ & _ & Hvars & _).
  apply Action_init_Ok in Hinit as (_ & _ & _ & _ & Hk).
  unfold traces_of. rewrite Hvars. destruct k.
  - destruct Hk as (_ & _ & _ & ->). done.
  - destruct Hk as (l & v & c & -> & -> & Hc & Hv & Hl & ->).
    exists v, l. simpl. rewrite lookup_insert_eq, Hc.
    repeat split; try done.
    intros w Hw. by rewrite lookup_insert_ne.
  - destruct Hk as (_ & _ & _ & ->). done.
Qed.

Lemma add_any_action_wf p k cc b var tts s a s' :
  wf s → _add_any_action p k cc b var tts s = Ok a s' → wf s'.
Proof.
  intros Hwf H.
  pose proof (add_any_action_traces _ _ _ _ _ _ _ _ _ H) as Htr.
  apply add_any_action_Ok in H
    as (a0 & s1 & Hst & Hend & Hnone & Hinit & Ha & Hact & _ & _ & _ & _ & _ & Htab & _).
  apply Action_init_Ok in Hinit as (Hpath & Hkind & _ & _ & Hk).
  assert (Hpa : Action.path a = p) by (by subst a).
  assert (Hka : Action.kind a = k) by (by subst a).
  assert (Hca : Action.callback a = Action.callback a0) by (by subst a).
  assert (Hva : Action.var a = Action.var a0) by (by subst a).
  clear Ha.
  assert (Hmono : ∀ q w, q ∈ traces_of s w → q ∈ traces_of s' w).
  { intros q w Hq. destruct k; try (by rewrite Htr).
    destruct Htr as (v & l & _ & _ & _ & _ & Hv & Hw).
    destruct (decide (w = v)) as [->|Hne].
    - rewrite Hv. by right.
    - by rewrite Hw. }
  constructor.
  - intros q. rewrite Hact. intros [aq Hq].
    apply lookup_insert_Some in Hq as [[<- <-]|[_ Hq]]; [done|].
    eapply wf_valid_path; eauto.
  - intros q aq. rewrite Hact. intros Hq.
    apply lookup_insert_Some in Hq as [[<- <-]|[_ Hq]]; [done|].
    by eapply wf_path.
  - intros q aq. rewrite Hact. intros Hq Hkq.
    apply lookup_insert_Some in Hq as [[<- <-]|[_ Hq]]; [|by eapply wf_command].
    rewrite Hka in Hkq. rewrite Hkq in Hk. destruct Hk as (f & _ & Hf & _).
    rewrite Hca, Hf. eauto.
  - intros q aq. rewrite Hact. intros Hq Hkq.
    apply lookup_insert_Some in Hq as [[<- <-]|[_ Hq]]; [|by eapply wf_yesno].
    rewrite Hka in Hkq. rewrite Hkq in Hk. destruct Hk as (v & _ & Hv & _).
    rewrite Hva, Hv. eauto.
  - intros q aq. rewrite Hact. intros Hq Hkq.
    apply lookup_insert_Some in Hq as [[<- <-]|[_ Hq]].
    + rewrite Hka in Hkq. rewrite Hkq in Htr.
      destruct Htr as (v & l & _ & _ & Hv & Hl & Hvt & _).
      exists v, l. repeat split; try done. rewrite Hvt. by left.
    + destruct (wf_choice s Hwf q aq Hq Hkq) as (v & cs & ? & ? & ?).
      exists v, cs. repeat split; try done. by apply Hmono.
  - intros w q Hq. rewrite Hact.
    assert (Hold : q ∈ traces_of s w →
      ∃ a1 cs, <[p:=a]> (_actions s) !! q = Some a1 ∧ Action.kind a1 = choice ∧
               Action.var a1 = Some w ∧ Action.choices a1 = Some cs).
    { intros Hq'. destruct (wf_traces s Hwf w q Hq') as (a1 & cs & Ha1 & ?).
      exists a1, cs. split; [|done].
      rewrite lookup_insert_ne; [done|]. intros <-. congruence. }
    destruct k; try (rewrite Htr in Hq; by apply Hold).
    destruct Htr as (v & l & _ & _ & Hv & Hl & Hvt & Hw).
    destruct (decide (w = v)) as [->|Hne].
    + rewrite Hvt in Hq. apply elem_of_cons in Hq as [->|Hq]; [|by apply Hold].
      exists a, l. rewrite lookup_insert_eq. done.
    + rewrite Hw in Hq by done. by apply Hold.
  - intros w. destruct k; try (rewrite Htr; by apply wf_traces_nodup).
    destruct Htr as (v & l & _ & _ & _ & _ & Hvt & Hw).
    destruct (decide (w = v)) as [->|Hne].
    + rewrite Hvt. apply NoDup_cons. split.
      * by apply not_traced_unregistered.
      * by apply wf_traces_nodup.
    + rewrite Hw by done. by apply wf_traces_nodup.
  - intros h. rewrite Htab, Hact. intros Hh.
    apply elem_of_app in Hh as [Hh|Hh].
    + apply lookup_insert_is_Some'. right. by apply wf_tab_changed.
    + destruct tts; [|by apply elem_of_nil in Hh].
      apply list_elem_of_singleton in Hh as ->. simpl.
      rewrite lookup_insert_eq. eauto.
  - rewrite Htab, fmap_app. apply NoDup_app. split; [by apply wf_tab_changed_nodup|].
    split.
    + intros q Hq Hq'. destruct tts; [|by apply elem_of_nil in Hq'].
      apply list_elem_of_singleton in Hq'. simpl in Hq'. subst q.
      apply list_elem_of_fmap in Hq as (h & Hp & Hh).
      destruct (wf_tab_changed s Hwf h Hh) as [? ?]. congruence.
    + destruct tts; simpl; [apply NoDup_singleton | constructor].
Qed.

(** ** The variable of a yes/no or choice action *)

Lemma fresh_var_None s : tk_vars s !! fresh_var s = None.
Proof. apply not_elem_of_dom. unfold fresh_var. apply is_fresh. Qed.

Lemma traces_of_allocated v init s w :
  tk_vars s !! v = None → traces_of (allocated v init s) w = traces_of s w.
Proof.
  intros Hv. unfold traces_of. simpl.
  destruct (decide (v = w)) as [<-|Hne].
  - by rewrite lookup_insert_eq, Hv.
  - by rewrite lookup_insert_ne.
Qed.

Lemma same_skeleton_allocated v init s :
  tk_vars s !! v = None → same_skeleton s (allocated v init s).
Proof.
  intros Hv. constructor; [done | | done].
  intros w. by apply traces_of_allocated.
Qed.

Lemma same_registry_allocated v init s : same_registry s (allocated v init s).
Proof. by constructor. Qed.

Lemma var_set_new s x init :
  var_set (fresh_var s) x (allocated (fresh_var s) init s) =
    Ok tt (written (fresh_var s) x (allocated (fresh_var s) init s)).
Proof.
  apply var_set_spec. intros q.
  rewrite traces_of_allocated by apply fresh_var_None.
  unfold traces_of. rewrite fresh_var_None. by intros ?%elem_of_nil.
Qed.

Lemma add_yesno_var_spec s default var :
  wf s →
  add_yesno_var default var s =
    match var, default with
    | None, None => Raise ConfigurationError s
    | None, Some d =>
        Ok (fresh_var s)
           (written (fresh_var s) (VBool d) (allocated (fresh_var s) (VBool false) s))
    | Some v, Some d => Ok v (written v (VBool d) s)
    | Some v, None => Ok v s
    end.
Proof.
  intros Hwf. unfold add_yesno_var.
  destruct var as [v|], default as [d|]; try reflexivity.
  - unfold bind. by rewrite var_set_wf.
  - unfold bind, BooleanVar, new_variable. fold (fresh_var s).
    fold (allocated (fresh_var s) (VBool false) s).
    by rewrite var_set_new.
Qed.

Lemma add_choice_var_spec s choices default var :
  wf s →
  add_choice_var choices default var s =
    match choice_check choices default var s with
    | Some e => Raise e s
    | None =>
        match var, default with
        | None, _ =>
            Ok (fresh_var s)
               (written (fresh_var s)
                  (VStr (match default with Some d => d | None => hd "" choices end))
                  (allocated (fresh_var s) (VStr "") s))
        | Some v, Some d => Ok v (written v (VStr d) s)
        | Some v, None => Ok v s
        end
    end.
Proof.
  intros Hwf. unfold add_choice_var, choice_check, default_check.
  destruct var as [v|].
  - unfold bind at 1. unfold var_get.
    destruct (tk_vars s !! v) as [c|]; [|reflexivity].
    destruct (value_in (content c) choices); simpl; [|reflexivity].
    destruct default as [d|]; [|reflexivity].
    case_bool_decide; [|reflexivity].
    unfold bind. by rewrite var_set_wf.
  - assert (Hnew : ∀ x,
      (do v <- StringVar; var_set v (VStr x);; ret v) s =
      Ok (fresh_var s)
        (written (fresh_var s) (VStr x) (allocated (fresh_var s) (VStr "") s))).
    { intros x. unfold bind, StringVar, new_variable. fold (fresh_var s).
      fold (allocated (fresh_var s) (VStr "") s). by rewrite var_set_new. }
    destruct default as [d|].
    + unfold bind at 1. case_bool_decide.
      * destruct choices; apply Hnew.
      * by destruct choices.
    + destruct choices as [|c0 cs]; [reflexivity|].
      unfold bind at 1. simpl. apply Hnew.
Qed.

Lemma cells_kept_refl s : cells_kept s s.
Proof. by intros w c. Qed.

Lemma new_written_frame s x init :
  let s' := written (fresh_var s) x (allocated (fresh_var s) init s) in
  same_registry s s' ∧ same_skeleton s s' ∧ cells_kept s s' ∧ warned s' = warned s ∧
  tk_vars s' !! fresh_var s = Some (MkCell x []).
Proof.
  pose proof (fresh_var_None s) as Hf. simpl. split; [by constructor|].
  split; [|split; [|split]].
  - eapply same_skeleton_trans; [by apply same_skeleton_allocated|].
    apply same_skeleton_written.
  - intros w c Hw. simpl. rewrite lookup_insert_ne by congruence.
    rewrite lookup_insert_ne by congruence. done.
  - rewrite traces_of_allocated by done. unfold traces_of. rewrite Hf.
    simpl. by rewrite app_nil_r.
  - rewrite lookup_insert_eq. rewrite traces_of_allocated by done.
    unfold traces_of. by rewrite Hf.
Qed.

Lemma add_yesno_var_frame s default var :
  wf s →
  same_registry s (state_of (add_yesno_var default var s)) ∧
  same_skeleton s (state_of (add_yesno_var default var s)) ∧
  (var = None ∨ default = None →
   cells_kept s (state_of (add_yesno_var default var s)) ∧
   warned (state_of (add_yesno_var default var s)) = warned s).
Proof.
  intros Hwf. rewrite add_yesno_var_spec by done.
  destruct var as [v|], default as [d|]; simpl.
  - split; [apply same_registry_written|]. split; [apply same_skeleton_written|].
    by intros [?|?].
  - split; [apply same_registry_refl|]. split; [apply same_skeleton_refl|].
    intros _. split; [apply cells_kept_refl | done].
  - destruct (new_written_frame s (VBool d) (VBool false)) as (? & ? & ? & ? & _).
    done.
  - split; [apply same_registry_refl|]. split; [apply same_skeleton_refl|].
    intros _. split; [apply cells_kept_refl | done].
Qed.

Lemma add_choice_var_frame s choices default var :
  wf s →
  same_registry s (state_of (add_choice_var choices default var s)) ∧
  same_skeleton s (state_of (add_choice_var choices default var s)) ∧
  (var = None ∨ default = None →
   cells_kept s (state_of (add_choice_var choices default var s)) ∧
   warned (state_of (add_choice_var choices default var s)) = warned s).
Proof.
  intros Hwf. rewrite add_choice_var_spec by done.
  destruct (choice_check choices default var s); simpl.
  { split; [apply same_registry_refl|]. split; [apply same_skeleton_refl|].
    intros _. split; [apply cells_kept_refl | done]. }
  destruct var as [v|]; [destruct default as [d|]|]; simpl.
  - split; [apply same_registry_written|]. split; [apply same_skeleton_written|].
    by intros [?|?].
  - split; [apply same_registry_refl|]. split; [apply same_skeleton_refl|].
    intros _. split; [apply cells_kept_refl | done].
  - destruct (new_written_frame s
      (VStr (match default with Some d => d | None => hd "" choices end)) (VStr ""))
      as (? & ? & ? & ? & _).
    done.
Qed.

(** The variable handed to the shared constructor exists. *)
Lemma add_yesno_var_raised s default var :
  wf s → raised (add_yesno_var default var s) = yesno_check default var.
Proof.
  intros Hwf. rewrite add_yesno_var_spec by done.
  by destruct var, default.
Qed.

Lemma add_choice_var_raised s choices default var :
  wf s → raised (add_choice_var choices default var s) = choice_check choices default var s.
Proof.
  intros Hwf. rewrite add_choice_var_spec by done.
  destruct (choice_check choices default var s); [done|].
  by destruct var, default.
Qed.

Lemma add_choice_var_exists s choices default var v s1 :
  wf s → add_choice_var choices default var s = Ok v s1 →
  is_Some (tk_vars s1 !! v).
Proof.
  intros Hwf. rewrite add_choice_var_spec by done.
  unfold choice_check.
  destruct var as [w|].
  - destruct (tk_vars s !! w) as [c|] eqn:Hc; [|discriminate].
    destruct (value_in (content c) choices); [|discriminate].
    destruct (default_check choices default); [discriminate|].
    destruct default; intros E; inversion E; subst.
    + simpl. rewrite lookup_insert_eq. eauto.
    + rewrite Hc. eauto.
  - destruct (match default, choices with
              | None, [] => Some IndexError
              | _, _ => default_check choices default
              end); [discriminate|].
    intros E; inversion E; subst. simpl. rewrite lookup_insert_eq. eauto.
Qed.

(** ** The three entry points *)

Lemma add_yesno_unfold p default kb var tts s :
  add_yesno p default kb var tts s =
    match add_yesno_var default var s with
    | Ok v s1 => _add_any_action p yesno NoCallback kb (Some v) tts s1
    | Raise e s1 => Raise e s1
    end.
Proof. reflexivity. Qed.

Lemma add_choice_unfold p choices default var tts s :
  add_choice p choices default var tts s =
    match add_choice_var choices default var s with
    | Ok v s1 => _add_any_action p choice (Choices choices) None (Some v) tts s1
    | Raise e s1 => Raise e s1
    end.
Proof. reflexivity. Qed.

Lemma add_any_action_found p k cc b var tts s a s' :
  _add_any_action p k cc b var tts s = Ok a s' →
  get_action p s' = Ok a s' ∧ Action.path a = p ∧ Action.kind a = k.
Proof.
  intros H. apply add_any_action_Ok in H
    as (a0 & s1 & _ & He & _ & Hinit & -> & Hact & _).
  apply Action_init_Ok in Hinit as (Hp & Hk & _).
  unfold get_action. rewrite (rstrip_id _ _ He), Hact, lookup_insert_eq.
  done.
Qed.

Lemma add_any_action_wf_always p k cc b var tts s :
  wf s → b = None ∨ k ≠ choice →
  wf (state_of (_add_any_action p k cc b var tts s)).
Proof.
  intros Hwf Hb.
  destruct (_add_any_action p k cc b var tts s) as [a s'|e s'] eqn:E; simpl.
  - by eapply add_any_action_wf.
  - by apply add_any_action_Raise in E as [-> _].
Qed.

Lemma add_command_wf p cb kb tts s :
  wf s → wf (state_of (add_command p cb kb tts s)).
Proof. intros Hwf. apply add_any_action_wf_always; [done|]. by right. Qed.

Lemma add_yesno_wf p default kb var tts s :
  wf s → wf (state_of (add_yesno p default kb var tts s)).
Proof.
  intros Hwf. rewrite add_yesno_unfold.
  destruct (add_yesno_var_frame s default var Hwf) as (_ & Hsk & _).
  destruct (add_yesno_var default var s) as [v s1|e s1]; simpl in *.
  - apply add_any_action_wf_always; [|by right]. by eapply wf_same_skeleton.
  - by eapply wf_same_skeleton.
Qed.

Lemma add_choice_wf p choices default var tts s :
  wf s → wf (state_of (add_choice p choices default var tts s)).
Proof.
  intros Hwf. rewrite add_choice_unfold.
  destruct (add_choice_var_frame s choices default var Hwf) as (_ & Hsk & _).
  destruct (add_choice_var choices default var s) as [v s1|e s1]; simpl in *.
  - apply add_any_action_wf_always; [|by left]. by eapply wf_same_skeleton.
  - by eapply wf_same_skeleton.
Qed.

Lemma add_command_succeeds p cb kb tts s :
  startswith p slash = false → endswith p slash = false →
  _actions s !! p = None →
  ∃ a s', add_command p cb kb tts s = Ok a s'.
Proof.
  intros Hs He Hnone. unfold add_command.
  eapply add_any_action_succeeds; try done. by right.
Qed.

Lemma add_yesno_succeeds p default kb var tts s :
  wf s → startswith p slash = false → endswith p slash = false →
  _actions s !! p = None → yesno_check default var = None →
  ∃ a s', add_yesno p default kb var tts s = Ok a s'.
Proof.
  intros Hwf Hs He Hnone Hchk. rewrite add_yesno_unfold.
  destruct (add_yesno_var_frame s default var Hwf) as (Hsr & _ & _).
  pose proof (add_yesno_var_raised s default var Hwf) as Hr.
  rewrite Hchk in Hr.
  destruct (add_yesno_var default var s) as [v s1|e s1]; [|discriminate].
  simpl in Hsr. eapply add_any_action_succeeds; try done.
  - by rewrite (sr_actions _ _ Hsr).
  - by right.
Qed.

Lemma add_choice_succeeds p choices default var tts s :
  wf s → startswith p slash = false → endswith p slash = false →
  _actions s !! p = None → choice_check choices default var s = None →
  ∃ a s', add_choice p choices default var tts s = Ok a s'.
Proof.
  intros Hwf Hs He Hnone Hchk. rewrite add_choice_unfold.
  destruct (add_choice_var_frame s choices default var Hwf) as (Hsr & _ & _).
  pose proof (add_choice_var_raised s choices default var Hwf) as Hr.
  rewrite Hchk in Hr.
  destruct (add_choice_var choices default var s) as [v s1|e s1] eqn:Hvar;
    [|discriminate].
  destruct (add_choice_var_exists _ _ _ _ _ _ Hwf Hvar) as [c Hc].
  simpl in Hsr. eapply add_any_action_succeeds; try done.
  - by rewrite (sr_actions _ _ Hsr).
  - unfold Action_init, bind, trace_add. rewrite Hc. reflexivity.
  - by left.
Qed.

Lemma add_yesno_found p dflt kb var tts s : found_after yesno p (add_yesno p dflt kb var tts s).
Proof.
  intros a s'. rewrite add_yesno_unfold.
  destruct (add_yesno_var dflt var s); [|discriminate].
  apply add_any_action_found.
Qed.

Lemma add_choice_found p cs dflt var tts s :
  found_after choice p (add_choice p cs dflt var tts s).
Proof.
  intros a s'. rewrite add_choice_unfold.
  destruct (add_choice_var cs dflt var s); [|discriminate].
  apply add_any_action_found.
Qed.

Lemma add_command_found p cb kb tts s : found_after command p (add_command p cb kb tts s).
Proof. intros a s'. apply add_any_action_found. Qed.

(** * The claims *)

(** C1: a registration through [add_command], [add_yesno] or [add_choice]
    with valid input returns an action, and [get_action] on the same path
    then returns that action, whose path is the registered one and whose
    kind is the one of the entry point.  Valid input is a path that does not
    start or end with ['/'] and is not registered yet, with arguments that
    pass the entry point's own checks; whenever a registration returns, for
    whatever input, the lookup finds its action. *)
Theorem C1_registered_action_is_found s p :
  wf s →
  (∀ cb kb tts,
     (valid_path s p → returns (add_command p cb kb tts s)) ∧
     found_after command p (add_command p cb kb tts s)) ∧
  (∀ dflt kb var tts,
     (valid_path s p → yesno_check dflt var = None →
      returns (add_yesno p dflt kb var tts s)) ∧
     found_after yesno p (add_yesno p dflt kb var tts s)) ∧
  (∀ cs dflt var tts,
     (valid_path s p → choice_check cs dflt var s = None →
      returns (add_choice p cs dflt var tts s)) ∧
     found_after choice p (add_choice p cs dflt var tts s)).
Proof.
  intros Hwf. split; [|split].
  - intros cb kb tts. split; [|apply add_command_found].
    intros (Hs & He & Hn). by apply add_command_succeeds.
  - intros dflt kb var tts. split; [|apply add_yesno_found].
    intros (Hs & He & Hn) Hc. by apply add_yesno_succeeds.
  - intros cs dflt var tts. split; [|apply add_choice_found].
    intros (Hs & He & Hn) Hc. by apply add_choice_succeeds.
Qed.

Lemma C1_witness :
  wf (initial None) ∧ valid_path (initial None) "Edit/Find" ∧
  returns (add_command "Edit/Find" 1 (Some "<Control-f>") None (initial None)) ∧
  found_after command "Edit/Find"
    (add_command "Edit/Find" 1 (Some "<Control-f>") None (initial None)) ∧
  returns (add_yesno "View/Wrap" (Some true) None None None (initial None)) ∧
  returns (add_choice "View/Theme" ["dark"; "light"] None None None (initial None)).
Proof.
  assert (V : ∀ p, startswith p slash = false → endswith p slash = false →
              valid_path (initial None) p).
  { intros p Hs He. unfold valid_path.
    split; [done|]. split; [done | apply lookup_empty]. }
  split; [apply wf_initial|].
  split; [apply V; reflexivity|].
  split; [|split; [|split]].
  - apply (C1_registered_action_is_found (initial None) "Edit/Find" (wf_initial None)).
    apply V; reflexivity.
  - apply (C1_registered_action_is_found (initial None) "Edit/Find" (wf_initial None)).
  - apply (C1_registered_action_is_found (initial None) "View/Wrap" (wf_initial None)).
    + apply V; reflexivity.
    + reflexivity.
  - apply (C1_registered_action_is_found (initial None) "View/Theme" (wf_initial None)).
    + apply V; reflexivity.
    + reflexivity.
Defined.

(** C3 (as amended): [get_action] looks up the path it is given without ALL
    of its trailing ['/'], not without one only: every string is a string
    that does not end with ['/'] followed by some number of ['/'], and the
    lookup of such a string is the exact lookup of that first part; it
    raises [NotFoundError] when the first part is not registered. *)
Theorem C3_lookup_trims_every_trailing_slash :
  (∀ p, ∃ n, p = rstrip p slash +:+ times slash n ∧
             endswith (rstrip p slash) slash = false) ∧
  (∀ s q n, endswith q slash = false →
     get_action (q +:+ times slash n) s =
       match _actions s !! q with
       | Some a => Ok a s
       | None => Raise NotFoundError s
       end).
Proof.
  split.
  - intros p. destruct (rstrip_split p slash) as [n Hn].
    exists n. split; [exact Hn | apply endswith_rstrip].
  - intros s q n Hq. unfold get_action. by rewrite rstrip_app_times.
Qed.

Lemma C3_witness :
  endswith "a/b" slash = false ∧
  get_action "a/b//" registry_ab =
    match _actions registry_ab !! "a/b" with
    | Some a => Ok a registry_ab
    | None => Raise NotFoundError registry_ab
    end.
Proof.
  split; [reflexivity|].
  apply (proj2 C3_lookup_trims_every_trailing_slash registry_ab "a/b" 2).
  reflexivity.
Defined.

(** C3, as it was stated, fails: with ["a/b"] registered, [get_action]
    finds the action under ["a/b//"], although that string without one
    trailing ['/'] is ["a/b/"], which is not registered. *)
Lemma C3_two_trailing_slashes_are_found :
  trim_single_slash "a/b//" = "a/b/" ∧
  _actions registry_ab !! trim_single_slash "a/b//" = None ∧
  Action.path <$> value_of (get_action "a/b//" registry_ab) = Some "a/b".
Proof. vm_compute. repeat split. Qed.

(** C4: a write to [enabled] with the value it has changes nothing and
    generates nothing; a write with the other value generates exactly one
    event on the main window, [<<ActionEnabled>>] for [True] and
    [<<ActionDisabled>>] for [False], with the action's path as data, and
    changes the flag of that action and nothing else. *)
Theorem C4_enabled_setter s self a b :
  _actions s !! self = Some a →
  (Action._enabled a = b → Action_enabled_setter self b s = Ok tt s) ∧
  (Action._enabled a ≠ b →
   ∃ s', Action_enabled_setter self b s = Ok tt s' ∧
     generated s' = generated s ++
       [(if b then "<<ActionEnabled>>" else "<<ActionDisabled>>", Action.path a)] ∧
     _actions s' = <[self := Action.with_enabled b a]> (_actions s) ∧
     _order s' = _order s ∧ tk_vars s' = tk_vars s ∧ warned s' = warned s ∧
     selected s' = selected s ∧ tab_changed s' = tab_changed s ∧
     bound s' = bound s ∧ called s' = called s).
Proof.
  intros Ha. split.
  - intros <-. by apply enabled_setter_same.
  - intros Hb. exists (switched self a b s).
    split; [by apply enabled_setter_differs|].
    unfold switched, enabled_event. simpl. repeat split.
Qed.

Lemma C4_witness :
  _actions registry_ab !! "a/b" = Some (Action.Make "a/b" command None true (Some 0) None None) ∧
  Action_enabled_setter "a/b" true registry_ab = Ok tt registry_ab ∧
  ∃ s', Action_enabled_setter "a/b" false registry_ab = Ok tt s' ∧
        generated s' = generated registry_ab ++ [("<<ActionDisabled>>", "a/b")].
Proof.
  assert (H : _actions registry_ab !! "a/b" =
              Some (Action.Make "a/b" command None true (Some 0) None None))
    by (vm_compute; reflexivity).
  destruct (C4_enabled_setter registry_ab "a/b" _ true H) as [Hsame _].
  destruct (C4_enabled_setter registry_ab "a/b" _ false H) as [_ Hdiff].
  split; [exact H|]. split; [apply Hsame; reflexivity|].
  destruct Hdiff as (s' & Hs' & Hg & _); [discriminate|].
  exists s'. split; [exact Hs' | exact Hg].
Defined.

(** ** Registrations that fail on the path *)

Lemma get_action_registered s p a :
  wf s → _actions s !! p = Some a → get_action p s = Ok a s.
Proof.
  intros Hwf Ha.
  destruct (wf_valid_path s Hwf p) as [_ He]; [eauto|].
  unfold get_action. by rewrite (rstrip_id _ _ He), Ha.
Qed.

(** What a registration that cannot pass the path checks does: the argument
    checks of the entry point come first, and the state is the one they
    leave. *)
Lemma add_yesno_rejected p dflt kb var tts s e :
  wf s →
  (∀ v s1, same_registry s s1 →
     _add_any_action p yesno NoCallback kb (Some v) tts s1 = Raise e s1) →
  raised (add_yesno p dflt kb var tts s) = Some (default e (yesno_check dflt var)) ∧
  state_of (add_yesno p dflt kb var tts s) = state_of (add_yesno_var dflt var s).
Proof.
  intros Hwf Hrej. rewrite add_yesno_unfold.
  rewrite <- (add_yesno_var_raised s dflt var Hwf).
  destruct (add_yesno_var_frame s dflt var Hwf) as (Hsr & _).
  destruct (add_yesno_var dflt var s) as [v s1|e1 s1]; simpl in *; [|done].
  by rewrite Hrej.
Qed.

Lemma add_choice_rejected p cs dflt var tts s e :
  wf s →
  (∀ v s1, same_registry s s1 →
     _add_any_action p choice (Choices cs) None (Some v) tts s1 = Raise e s1) →
  raised (add_choice p cs dflt var tts s) = Some (default e (choice_check cs dflt var s)) ∧
  state_of (add_choice p cs dflt var tts s) = state_of (add_choice_var cs dflt var s).
Proof.
  intros Hwf Hrej. rewrite add_choice_unfold.
  rewrite <- (add_choice_var_raised s cs dflt var Hwf).
  destruct (add_choice_var_frame s cs dflt var Hwf) as (Hsr & _).
  destruct (add_choice_var cs dflt var s) as [v s1|e1 s1]; simpl in *; [|done].
  by rewrite Hrej.
Qed.

(** C9: a registration with a path that starts or ends with ['/'] (such as
    ["/x"], ["x/"] and ["/"]) raises [InvalidPathError] and leaves the
    registry as it was (the mapping and its order, the notifications, the
    tab manager's handlers, the key bindings, the callbacks run), for
    arguments that pass the entry point's own check: [yesno_check] and
    [choice_check] are then [None] and the exception below is
    [InvalidPathError].  (For arguments that do not pass it, the call fails
    on that check, and the registry is left as it was all the same.) *)
Theorem C9_invalid_path_is_rejected s p :
  wf s → startswith p slash || endswith p slash = true →
  (∀ cb kb tts, add_command p cb kb tts s = Raise InvalidPathError s) ∧
  (∀ dflt kb var tts,
     raised (add_yesno p dflt kb var tts s) =
       Some (default InvalidPathError (yesno_check dflt var)) ∧
     same_registry s (state_of (add_yesno p dflt kb var tts s))) ∧
  (∀ cs dflt var tts,
     raised (add_choice p cs dflt var tts s) =
       Some (default InvalidPathError (choice_check cs dflt var s)) ∧
     same_registry s (state_of (add_choice p cs dflt var tts s))).
Proof.
  intros Hwf Hp. split; [|split].
  - intros cb kb tts. by apply add_any_action_invalid_path.
  - intros dflt kb var tts.
    destruct (add_yesno_rejected p dflt kb var tts s InvalidPathError Hwf) as [Hr Hs].
    { intros v s1 _. by apply add_any_action_invalid_path. }
    split; [exact Hr|]. rewrite Hs. by apply add_yesno_var_frame.
  - intros cs dflt var tts.
    destruct (add_choice_rejected p cs dflt var tts s InvalidPathError Hwf) as [Hr Hs].
    { intros v s1 _. by apply add_any_action_invalid_path. }
    split; [exact Hr|]. rewrite Hs. by apply add_choice_var_frame.
Qed.

Lemma C9_witness :
  wf (initial None) ∧
  startswith "/x" slash || endswith "/x" slash = true ∧
  startswith "x/" slash || endswith "x/" slash = true ∧
  startswith "/" slash || endswith "/" slash = true ∧
  add_command "/x" 0 None None (initial None) = Raise InvalidPathError (initial None) ∧
  raised (add_yesno "x/" (Some true) None None None (initial None)) = Some InvalidPathError ∧
  raised (add_choice "/" ["a"; "b"] None None None (initial None)) = Some InvalidPathError.
Proof.
  split; [apply wf_initial|]. do 3 (split; [reflexivity|]).
  split; [|split].
  - apply (C9_invalid_path_is_rejected (initial None) "/x" (wf_initial None)).
    reflexivity.
  - apply (proj1 (proj2 (C9_invalid_path_is_rejected (initial None) "x/"
                           (wf_initial None) eq_refl)) (Some true) None None None).
  - apply (proj2 (proj2 (C9_invalid_path_is_rejected (initial None) "/"
                           (wf_initial None) eq_refl)) ["a"; "b"] None None None).
Defined.

(** The check of the arguments comes before the checks of the path:
    [add_yesno] with neither a default nor a variable raises
    [ConfigurationError] (a [TypeError]) whatever the path is. *)
Example argument_check_comes_first :
  raised (add_yesno "/x" None None None None (initial None)) = Some ConfigurationError.
Proof. reflexivity. Qed.

(** C2 (as amended): a registration with a path that is registered already
    fails and leaves the registry as it was (the mapping and its order, the
    notifications, the tab manager's handlers, the key bindings, the
    callbacks run), so that the first action is still found, unchanged.  The
    exception is [DuplicatePathError] unless the entry point's own argument
    check fails, which comes first.  When the call does not give both a
    variable and a default, the variables that exist keep their content and
    traces and no warning is given. *)
Theorem C2_duplicate_path_is_rejected s p a :
  wf s → _actions s !! p = Some a →
  (∀ cb kb tts, add_command p cb kb tts s = Raise DuplicatePathError s) ∧
  (∀ dflt kb var tts,
     let s' := state_of (add_yesno p dflt kb var tts s) in
     raised (add_yesno p dflt kb var tts s) =
       Some (default DuplicatePathError (yesno_check dflt var)) ∧
     same_registry s s' ∧ get_action p s' = Ok a s' ∧
     (var = None ∨ dflt = None → cells_kept s s' ∧ warned s' = warned s)) ∧
  (∀ cs dflt var tts,
     let s' := state_of (add_choice p cs dflt var tts s) in
     raised (add_choice p cs dflt var tts s) =
       Some (default DuplicatePathError (choice_check cs dflt var s)) ∧
     same_registry s s' ∧ get_action p s' = Ok a s' ∧
     (var = None ∨ dflt = None → cells_kept s s' ∧ warned s' = warned s)).
Proof.
  intros Hwf Ha.
  destruct (wf_valid_path s Hwf p) as [Hs He]; [eauto|].
  assert (Hok : startswith p slash || endswith p slash = false) by (by rewrite Hs, He).
  assert (Hfound : ∀ s', wf s' → same_registry s s' → get_action p s' = Ok a s').
  { intros s' Hwf' Hsr. apply get_action_registered; [done|].
    by rewrite (sr_actions _ _ Hsr). }
  assert (Hdup : ∀ k cc kb v tts s1, same_registry s s1 →
            _add_any_action p k cc kb v tts s1 = Raise DuplicatePathError s1).
  { intros k cc kb v tts s1 Hsr. apply add_any_action_duplicate; [done|].
    rewrite (sr_actions _ _ Hsr), Ha. eauto. }
  split; [|split].
  - intros cb kb tts. apply Hdup, same_registry_refl.
  - intros dflt kb var tts s'.
    destruct (add_yesno_var_frame s dflt var Hwf) as (Hsr & Hsk & Hcells).
    destruct (add_yesno_rejected p dflt kb var tts s DuplicatePathError Hwf) as [Hr Hst].
    { intros v s1. apply Hdup. }
    subst s'. rewrite Hst. split; [exact Hr|]. split; [exact Hsr|].
    split; [|exact Hcells].
    apply Hfound; [|exact Hsr]. by eapply wf_same_skeleton.
  - intros cs dflt var tts s'.
    destruct (add_choice_var_frame s cs dflt var Hwf) as (Hsr & Hsk & Hcells).
    destruct (add_choice_rejected p cs dflt var tts s DuplicatePathError Hwf) as [Hr Hst].
    { intros v s1. apply Hdup. }
    subst s'. rewrite Hst. split; [exact Hr|]. split; [exact Hsr|].
    split; [|exact Hcells].
    apply Hfound; [|exact Hsr]. by eapply wf_same_skeleton.
Qed.

Lemma registry_wrap_wf : wf registry_wrap.
Proof. apply add_yesno_wf, wf_initial. Qed.

Lemma C2_witness :
  wf registry_wrap ∧
  _actions registry_wrap !! "View/Wrap" =
    Some (Action.Make "View/Wrap" yesno None true None (Some 0) None) ∧
  add_command "View/Wrap" 3 None None registry_wrap =
    Raise DuplicatePathError registry_wrap ∧
  raised (add_yesno "View/Wrap" None None (Some 0) None registry_wrap) =
    Some DuplicatePathError ∧
  get_action "View/Wrap" (state_of (add_choice "View/Wrap" ["a"] None None None registry_wrap)) =
    Ok (Action.Make "View/Wrap" yesno None true None (Some 0) None)
       (state_of (add_choice "View/Wrap" ["a"] None None None registry_wrap)).
Proof.
  assert (H : _actions registry_wrap !! "View/Wrap" =
              Some (Action.Make "View/Wrap" yesno None true None (Some 0) None))
    by (vm_compute; reflexivity).
  pose proof (C2_duplicate_path_is_rejected registry_wrap "View/Wrap" _
                registry_wrap_wf H) as (Hc & Hy & Hch).
  split; [apply registry_wrap_wf|]. split; [exact H|].
  split; [apply Hc|]. split.
  - apply (Hy None None (Some 0) None).
  - apply (Hch ["a"] None None None).
Defined.

(** C2, as it was stated, fails: a second [add_yesno] for ["View/Wrap"] that
    is given the variable of the first and the default [True] raises
    [DuplicatePathError], but the variable, which held [False], holds [True]
    afterwards. *)
Lemma C2_shared_variable_is_written :
  raised (add_yesno "View/Wrap" (Some true) None (Some 0) None registry_wrap) =
    Some DuplicatePathError ∧
  content <$> tk_vars registry_wrap !! 0 = Some (VBool false) ∧
  content <$> tk_vars (state_of
    (add_yesno "View/Wrap" (Some true) None (Some 0) None registry_wrap)) !! 0 =
    Some (VBool true).
Proof. vm_compute. repeat split. Qed.

(** C10: the empty path passes the check of the path, so registering it
    succeeds (when it is not registered yet and the entry point's own
    argument check passes), and [get_action] then returns the new action for
    [""] and for ["/"]. *)
Theorem C10_empty_path_is_accepted s :
  wf s → _actions s !! "" = None →
  (∀ cb kb tts, ∃ a s',
     add_command "" cb kb tts s = Ok a s' ∧
     get_action "" s' = Ok a s' ∧ get_action "/" s' = Ok a s') ∧
  (∀ dflt kb var tts, yesno_check dflt var = None → ∃ a s',
     add_yesno "" dflt kb var tts s = Ok a s' ∧
     get_action "" s' = Ok a s' ∧ get_action "/" s' = Ok a s') ∧
  (∀ cs dflt var tts, choice_check cs dflt var s = None → ∃ a s',
     add_choice "" cs dflt var tts s = Ok a s' ∧
     get_action "" s' = Ok a s' ∧ get_action "/" s' = Ok a s').
Proof.
  intros Hwf Hnone. split; [|split].
  - intros cb kb tts.
    destruct (add_command_succeeds "" cb kb tts s) as (a & s' & E); try done.
    exists a, s'. split; [exact E|].
    destruct (add_command_found _ _ _ _ _ _ _ E) as [Hg _]. by split.
  - intros dflt kb var tts Hc.
    destruct (add_yesno_succeeds "" dflt kb var tts s) as (a & s' & E); try done.
    exists a, s'. split; [exact E|].
    destruct (add_yesno_found _ _ _ _ _ _ _ _ E) as [Hg _]. by split.
  - intros cs dflt var tts Hc.
    destruct (add_choice_succeeds "" cs dflt var tts s) as (a & s' & E); try done.
    exists a, s'. split; [exact E|].
    destruct (add_choice_found _ _ _ _ _ _ _ _ E) as [Hg _]. by split.
Qed.

Lemma C10_witness :
  wf (initial None) ∧ _actions (initial None) !! "" = None ∧
  ∃ a s', add_command "" 0 None None (initial None) = Ok a s' ∧
          get_action "" s' = Ok a s' ∧ get_action "/" s' = Ok a s'.
Proof.
  split; [apply wf_initial|]. split; [apply lookup_empty|].
  apply (C10_empty_path_is_accepted (initial None) (wf_initial None)).
  apply lookup_empty.
Defined.

(** ** The initial value of a choice *)

Lemma add_any_action_choice_var p cs v tts s1 a s' :
  _add_any_action p choice (Choices cs) None (Some v) tts s1 = Ok a s' →
  Action.var a = Some v ∧ Action.choices a = Some cs ∧
  content <$> tk_vars s' !! v = content <$> tk_vars s1 !! v.
Proof.
  intros H. apply add_any_action_Ok in H
    as (a0 & s2 & _ & _ & _ & Hinit & -> & _ & _ & Hvars & _).
  apply Action_init_Ok in Hinit as (_ & _ & _ & _ & Hk).
  destruct Hk as (l & w & c & [= <-] & [= <-] & Hc & Hv & Hl & ->).
  rewrite Hvars. simpl. rewrite lookup_insert_eq, Hc. done.
Qed.

Lemma add_choice_checked p cs dflt var tts s e :
  wf s → choice_check cs dflt var s = Some e →
  add_choice p cs dflt var tts s = Raise e s.
Proof.
  intros Hwf Hc. rewrite add_choice_unfold, add_choice_var_spec by done.
  by rewrite Hc.
Qed.

Lemma add_choice_resolved p cs dflt var tts s :
  wf s → valid_path s p → choice_check cs dflt var s = None →
  ∃ a s' v, add_choice p cs dflt var tts s = Ok a s' ∧
    Action.var a = Some v ∧ Action.choices a = Some cs ∧
    match var with Some v0 => v = v0 | None => tk_vars s !! v = None end ∧
    content <$> tk_vars s' !! v = initial_choice cs dflt var s.
Proof.
  intros Hwf (Hs & He & Hnone) Hc.
  destruct (add_choice_succeeds p cs dflt var tts s) as (a & s' & E); try done.
  exists a, s'. revert E. rewrite add_choice_unfold, add_choice_var_spec by done.
  rewrite Hc. unfold initial_choice.
  destruct var as [v0|]; [destruct dflt as [d|]|].
  - intros E. exists v0. split; [done|].
    apply add_any_action_choice_var in E as (Hv & Hcs & ->).
    by rewrite content_written.
  - intros E. exists v0. split; [done|].
    by apply add_any_action_choice_var in E as (Hv & Hcs & ->).
  - intros E. exists (fresh_var s). split; [done|].
    apply add_any_action_choice_var in E as (Hv & Hcs & ->).
    rewrite content_written. repeat split; try done; [apply fresh_var_None|].
    destruct dflt as [d|]; [done|].
    unfold choice_check in Hc. by destruct cs.
Qed.

(** C6: the initial value of a choice.  Without a variable: a default that
    is one of the choices becomes the value of a new variable; a default
    that is not raises [InvalidChoiceError]; no default gives [choices[0]].
    With a variable: the call raises [InvalidChoiceError] unless the
    variable holds one of the choices already; a default must be one of the
    choices too, and is then written to the variable.  (The values are those
    of a call that passes the checks of the path; the exceptions come before
    these checks.) *)
Theorem C6_initial_choice s p cs tts :
  wf s →
  (∀ d, d ∈ cs → valid_path s p →
     ∃ a s' v, add_choice p cs (Some d) None tts s = Ok a s' ∧
       Action.var a = Some v ∧ tk_vars s !! v = None ∧
       content <$> tk_vars s' !! v = Some (VStr d)) ∧
  (∀ d, d ∉ cs →
     add_choice p cs (Some d) None tts s = Raise InvalidChoiceError s) ∧
  (∀ c0 cs', cs = c0 :: cs' → valid_path s p →
     ∃ a s' v, add_choice p cs None None tts s = Ok a s' ∧
       Action.var a = Some v ∧ tk_vars s !! v = None ∧
       content <$> tk_vars s' !! v = Some (VStr c0)) ∧
  (∀ v c dflt, tk_vars s !! v = Some c → value_in (content c) cs = false →
     add_choice p cs dflt (Some v) tts s = Raise InvalidChoiceError s) ∧
  (∀ v c d, tk_vars s !! v = Some c → d ∉ cs →
     add_choice p cs (Some d) (Some v) tts s = Raise InvalidChoiceError s) ∧
  (∀ v c d, tk_vars s !! v = Some c → value_in (content c) cs = true → d ∈ cs →
     valid_path s p →
     ∃ a s', add_choice p cs (Some d) (Some v) tts s = Ok a s' ∧
       Action.var a = Some v ∧
       content <$> tk_vars s' !! v = Some (VStr d)) ∧
  (∀ v c, tk_vars s !! v = Some c → value_in (content c) cs = true →
     valid_path s p →
     ∃ a s', add_choice p cs None (Some v) tts s = Ok a s' ∧
       Action.var a = Some v ∧
       content <$> tk_vars s' !! v = Some (content c)).
Proof.
  intros Hwf. repeat apply conj.
  - intros d Hd Hp.
    destruct (add_choice_resolved p cs (Some d) None tts s) as (a & s' & v & H); try done.
    { unfold choice_check, default_check. by rewrite bool_decide_eq_true_2. }
    exists a, s', v. tauto.
  - intros d Hd. apply add_choice_checked; [done|].
    unfold choice_check, default_check. by rewrite bool_decide_eq_false_2.
  - intros c0 cs' -> Hp.
    destruct (add_choice_resolved p (c0 :: cs') None None tts s)
      as (a & s' & v & H); try done.
    exists a, s', v. tauto.
  - intros v c dflt Hc Hin. apply add_choice_checked; [done|].
    unfold choice_check. by rewrite Hc, Hin.
  - intros v c d Hc Hd. apply add_choice_checked; [done|].
    unfold choice_check, default_check. rewrite Hc.
    rewrite bool_decide_eq_false_2 by done. by destruct (value_in _ _).
  - intros v c d Hc Hin Hd Hp.
    destruct (add_choice_resolved p cs (Some d) (Some v) tts s)
      as (a & s' & v' & E & Hv & _ & -> & Hcont); try done.
    { unfold choice_check, default_check. rewrite Hc, Hin.
      by rewrite bool_decide_eq_true_2. }
    exists a, s'. done.
  - intros v c Hc Hin Hp.
    destruct (add_choice_resolved p cs None (Some v) tts s)
      as (a & s' & v' & E & Hv & _ & -> & Hcont); try done.
    { unfold choice_check, default_check. by rewrite Hc, Hin. }
    exists a, s'. repeat split; try done.
    rewrite Hcont. unfold initial_choice. by rewrite Hc.
Qed.

Lemma registry_theme_wf : wf registry_theme.
Proof. apply add_choice_wf, wf_initial. Qed.

Lemma C6_witness :
  wf (initial None) ∧ valid_path (initial None) "View/Theme" ∧
  (∃ a s' v, add_choice "View/Theme" ["dark"; "light"] (Some "light") None None (initial None) = Ok a s' ∧
      Action.var a = Some v ∧ tk_vars (initial None) !! v = None ∧
      content <$> tk_vars s' !! v = Some (VStr "light")) ∧
  add_choice "View/Theme" ["dark"; "light"] (Some "blue") None None (initial None) =
    Raise InvalidChoiceError (initial None) ∧
  (∃ a s' v, add_choice "View/Theme" ["dark"; "light"] None None None (initial None) = Ok a s' ∧
      Action.var a = Some v ∧ tk_vars (initial None) !! v = None ∧
      content <$> tk_vars s' !! v = Some (VStr "dark")) ∧
  wf registry_theme ∧ valid_path registry_theme "Edit/Theme" ∧
  tk_vars registry_theme !! 0 = Some (MkCell (VStr "dark") ["View/Theme"]) ∧
  add_choice "Edit/Theme" ["upper"; "lower"] None (Some 0) None registry_theme =
    Raise InvalidChoiceError registry_theme ∧
  add_choice "Edit/Theme" ["dark"; "light"] (Some "blue") (Some 0) None registry_theme =
    Raise InvalidChoiceError registry_theme ∧
  (∃ a s', add_choice "Edit/Theme" ["dark"; "light"] (Some "light") (Some 0) None registry_theme = Ok a s' ∧
      Action.var a = Some 0 ∧ content <$> tk_vars s' !! 0 = Some (VStr "light")).
Proof.
  assert (V : valid_path (initial None) "View/Theme").
  { split; [reflexivity|]. split; [reflexivity | apply lookup_empty]. }
  assert (H0 : tk_vars registry_theme !! 0 = Some (MkCell (VStr "dark") ["View/Theme"]))
    by (vm_compute; reflexivity).
  assert (V' : valid_path registry_theme "Edit/Theme").
  { split; [reflexivity|]. split; [reflexivity | vm_compute; reflexivity]. }
  pose proof (C6_initial_choice (initial None) "View/Theme" ["dark"; "light"] None
                (wf_initial None)) as (Ha & Hb & Hc & _).
  pose proof (C6_initial_choice registry_theme "Edit/Theme" ["upper"; "lower"] None
                registry_theme_wf) as (_ & _ & _ & Hd & _).
  pose proof (C6_initial_choice registry_theme "Edit/Theme" ["dark"; "light"] None
                registry_theme_wf) as (_ & _ & _ & _ & He & Hf & _).
  split; [apply wf_initial|]. split; [exact V|].
  split; [apply Ha; [by_decide | exact V]|].
  split; [apply Hb; by_decide|].
  split; [apply (Hc "dark" ["light"]); [reflexivity | exact V]|].
  split; [apply registry_theme_wf|]. split; [exact V'|]. split; [exact H0|].
  split; [apply (Hd 0 _ None H0); vm_compute; reflexivity|].
  split; [apply (He 0 _ "blue" H0); by_decide|].
  apply (Hf 0 _ "light" H0); [vm_compute; reflexivity | by_decide | exact V'].
Defined.

(** ** A write to the variable of a choice *)

Lemma naming_report s x p q :
  wf s → naming p (report s x q) = if decide (q = p) then report s x q else [].
Proof.
  intros Hwf. unfold report, naming.
  destruct (_actions s !! q) as [a|] eqn:Ha; [|by case_decide].
  pose proof (wf_path s Hwf q a Ha) as Hp.
  destruct (Action.choices a) as [cs|]; [|by case_decide].
  destruct (value_in x cs); [by case_decide|].
  rewrite filter_cons. simpl. rewrite Hp. by repeat case_decide.
Qed.

Lemma naming_reports s x p tr :
  wf s → NoDup tr →
  naming p (reports s x tr) = if decide (p ∈ tr) then report s x p else [].
Proof.
  intros Hwf. induction tr as [|q tr IH]; intros Hnd.
  - rewrite decide_False; [done | apply not_elem_of_nil].
  - apply NoDup_cons in Hnd as [Hq Hnd]. unfold reports. simpl.
    unfold naming in *. rewrite filter_app.
    fold (naming p (report s x q)). rewrite naming_report by done.
    fold (reports s x tr). rewrite (IH Hnd).
    destruct (decide (q = p)) as [->|Hne].
    + rewrite decide_False by done. rewrite app_nil_r.
      rewrite decide_True; [done | by left].
    + simpl. destruct (decide (p ∈ tr)) as [Hin|Hnin].
      * rewrite decide_True; [done | by right].
      * rewrite decide_False; [done|].
        intros [?|?]%elem_of_cons; congruence.
Qed.

(** C7: a write of a value that is not one of the choices to the variable
    of a choice action does not raise, leaves the written value in the
    variable, leaves the registry (so every [enabled] flag) as it was, and
    gives warnings among which exactly one names the action, with the
    value; when the variable is the variable of this action only, this is
    the only warning. *)
Theorem C7_write_outside_choices s p a v cs x :
  wf s → _actions s !! p = Some a → Action.kind a = choice →
  Action.var a = Some v → Action.choices a = Some cs →
  value_in x cs = false →
  ∃ s' ws, var_set v x s = Ok tt s' ∧
    content <$> tk_vars s' !! v = Some x ∧
    same_registry s s' ∧
    warned s' = warned s ++ ws ∧
    naming p ws = [MkWarning p choice (Action._enabled a) x] ∧
    (traces_of s v = [p] → ws = [MkWarning p choice (Action._enabled a) x]).
Proof.
  intros Hwf Ha Hk Hv Hcs Hx.
  exists (written v x s), (reports s x (traces_of s v)).
  split; [by apply var_set_wf|].
  split; [apply content_written|].
  split; [apply same_registry_written|].
  split; [reflexivity|].
  assert (Hrep : report s x p = [MkWarning p choice (Action._enabled a) x]).
  { unfold report. rewrite Ha, Hcs, Hx, Hk. by rewrite (wf_path s Hwf p a Ha). }
  split.
  - rewrite naming_reports; [|done|by apply wf_traces_nodup].
    rewrite decide_True; [done|].
    destruct (wf_choice s Hwf p a Ha Hk) as (v' & cs' & Hv' & _ & Hin).
    congruence.
  - intros ->. unfold reports. simpl. by rewrite app_nil_r.
Qed.

Lemma C7_witness :
  wf registry_theme ∧
  _actions registry_theme !! "View/Theme" =
    Some (Action.Make "View/Theme" choice None true None (Some 0) (Some ["dark"; "light"])) ∧
  ∃ s', var_set 0 (VStr "blue") registry_theme = Ok tt s' ∧
    content <$> tk_vars s' !! 0 = Some (VStr "blue") ∧
    _actions s' = _actions registry_theme ∧
    warned s' = warned registry_theme ++ [MkWarning "View/Theme" choice true (VStr "blue")].
Proof.
  assert (H : _actions registry_theme !! "View/Theme" =
    Some (Action.Make "View/Theme" choice None true None (Some 0) (Some ["dark"; "light"])))
    by (vm_compute; reflexivity).
  split; [apply registry_theme_wf|]. split; [exact H|].
  destruct (C7_write_outside_choices registry_theme "View/Theme" _ 0 ["dark"; "light"]
              (VStr "blue") registry_theme_wf H eq_refl eq_refl eq_refl)
    as (s' & ws & Hset & Hcont & Hsr & Hw & _ & Honly).
  { vm_compute. reflexivity. }
  exists s'. split; [exact Hset|]. split; [exact Hcont|].
  split; [apply (sr_actions _ _ Hsr)|].
  rewrite Hw. f_equal. apply Honly. vm_compute. reflexivity.
Defined.

(** ** Key bindings *)

Lemma bind_callback_disabled s p a k :
  _actions s !! p = Some a → Action._enabled a = false →
  bind_callback p k s = Ok PyNone s.
Proof.
  intros Ha He. unfold bind_callback, bind, get_object. by rewrite Ha, He.
Qed.

Lemma bind_callback_command s p a f :
  _actions s !! p = Some a → Action._enabled a = true →
  Action.callback a = Some f →
  bind_callback p command s = Ok Break (set_called (fun l => l ++ [f]) s).
Proof.
  intros Ha He Hf. unfold bind_callback, bind, get_object.
  rewrite Ha, He. unfold attribute. by rewrite Hf.
Qed.

Lemma bind_callback_yesno s p a v b :
  wf s → _actions s !! p = Some a → Action._enabled a = true →
  Action.var a = Some v → content <$> tk_vars s !! v = Some (VBool b) →
  bind_callback p yesno s = Ok Break (written v (VBool (negb b)) s).
Proof.
  intros Hwf Ha He Hv Hc. unfold bind_callback, bind, get_object.
  rewrite Ha, He. unfold attribute, ret. rewrite Hv.
  unfold get_boolean, bind, var_get.
  destruct (tk_vars s !! v) as [c|]; [|discriminate].
  simpl in Hc. injection Hc as ->. unfold ret.
  by rewrite var_set_wf.
Qed.

(** The scripts bound by a registration with a key binding: the only script
    of the class [Text] for the key, and the last of [all]. *)
Lemma add_any_action_bound p k cc key var tts s a s' :
  _add_any_action p k cc (Some key) var tts s = Ok a s' →
  bound s' !! ("Text", key) = Some [BindCallback p k] ∧
  bound s' !! ("all", key) =
    Some (default [] (bound s !! ("all", key)) ++ [BindCallback p k]).
Proof.
  intros H. apply add_any_action_Ok in H
    as (a0 & s1 & _ & _ & _ & _ & _ & _ & _ & _ & _ & _ & _ & _ & Hb & _).
  rewrite Hb. simpl. split.
  - apply lookup_insert_eq.
  - rewrite lookup_insert_ne by (intros [= ?]; discriminate).
    apply lookup_insert_eq.
Qed.

(** C8: when the key of an action's binding reaches [bind_callback].  If
    the action is disabled, nothing happens and the scripts that follow run
    as they would without it.  If it is enabled, a command's callback runs
    (and nothing else changes), a yes/no action's variable gets the negation
    of the boolean it holds (and the registry stays as it is), and the answer
    is ['break']: no script that follows is run. *)
Theorem C8_key_binding s p a rest :
  wf s → _actions s !! p = Some a →
  (Action._enabled a = false → ∀ k,
     run_handler (BindCallback p k) s = Ok PyNone s ∧
     run_scripts (BindCallback p k :: rest) s = run_scripts rest s) ∧
  (Action._enabled a = true → Action.kind a = command →
     ∃ f, Action.callback a = Some f ∧
       run_handler (BindCallback p command) s =
         Ok Break (set_called (fun l => l ++ [f]) s) ∧
       run_scripts (BindCallback p command :: rest) s =
         Ok Break (set_called (fun l => l ++ [f]) s)) ∧
  (Action._enabled a = true → Action.kind a = yesno →
     ∃ v, Action.var a = Some v ∧
       ∀ b, content <$> tk_vars s !! v = Some (VBool b) →
         ∃ s', run_handler (BindCallback p yesno) s = Ok Break s' ∧
           content <$> tk_vars s' !! v = Some (VBool (negb b)) ∧
           same_registry s s' ∧
           run_scripts (BindCallback p yesno :: rest) s = Ok Break s').
Proof.
  intros Hwf Ha. split; [|split].
  - intros He k. simpl. unfold bind.
    by rewrite (bind_callback_disabled s p a k Ha He).
  - intros He Hk. destruct (wf_command s Hwf p a Ha Hk) as [f Hf].
    exists f. split; [done|]. simpl. unfold bind.
    by rewrite (bind_callback_command s p a f Ha He Hf).
  - intros He Hk. destruct (wf_yesno s Hwf p a Ha Hk) as [v Hv].
    exists v. split; [done|]. intros b Hb.
    exists (written v (VBool (negb b)) s). simpl. unfold bind.
    rewrite (bind_callback_yesno s p a v b Hwf Ha He Hv Hb).
    split; [done|]. split; [apply content_written|].
    split; [apply same_registry_written | done].
Qed.

Lemma registry_close_wf : wf registry_close.
Proof. apply add_command_wf, wf_initial. Qed.

Lemma registry_close_tab_wf : wf registry_close_tab.
Proof. apply add_command_wf, wf_initial. Qed.

Lemma registry_wrap_key_wf : wf registry_wrap_key.
Proof. apply add_yesno_wf, wf_initial. Qed.

Lemma C8_witness :
  wf registry_close ∧
  _actions registry_close !! "File/Close" =
    Some (Action.Make "File/Close" command (Some "<Control-w>") false (Some 7) None None) ∧
  run_scripts [BindCallback "File/Close" command; Foreign 9 PyNone] registry_close =
    run_scripts [Foreign 9 PyNone] registry_close ∧
  (∃ f, run_scripts [BindCallback "File/Close" command; Foreign 9 PyNone] registry_close_tab =
     Ok Break (set_called (fun l => l ++ [f]) registry_close_tab)) ∧
  (∃ s', run_scripts [BindCallback "View/Wrap" yesno; Foreign 9 PyNone] registry_wrap_key =
     Ok Break s' ∧ content <$> tk_vars s' !! 0 = Some (VBool true)).
Proof.
  assert (H1 : _actions registry_close !! "File/Close" =
    Some (Action.Make "File/Close" command (Some "<Control-w>") false (Some 7) None None))
    by (vm_compute; reflexivity).
  assert (H2 : _actions registry_close_tab !! "File/Close" =
    Some (Action.Make "File/Close" command (Some "<Control-w>") true (Some 7) None None))
    by (vm_compute; reflexivity).
  assert (H3 : _actions registry_wrap_key !! "View/Wrap" =
    Some (Action.Make "View/Wrap" yesno (Some "<Alt-z>") true None (Some 0) None))
    by (vm_compute; reflexivity).
  split; [apply registry_close_wf|]. split; [exact H1|].
  split; [|split].
  - apply (C8_key_binding registry_close "File/Close" _ [Foreign 9 PyNone]
             registry_close_wf H1). reflexivity.
  - destruct (C8_key_binding registry_close_tab "File/Close" _ [Foreign 9 PyNone]
                registry_close_tab_wf H2) as (_ & Hc & _).
    destruct Hc as (f & _ & _ & Hrun); [reflexivity | reflexivity |].
    exists f. exact Hrun.
  - destruct (C8_key_binding registry_wrap_key "View/Wrap" _ [Foreign 9 PyNone]
                registry_wrap_key_wf H3) as (_ & _ & Hy).
    destruct Hy as (v & Hv & Hflip); [reflexivity | reflexivity |].
    simpl in Hv. injection Hv as <-.
    destruct (Hflip false) as (s' & _ & Hcont & _ & Hrun).
    { vm_compute. reflexivity. }
    exists s'. split; [exact Hrun | exact Hcont].
Defined.

(** ** Enabling by the type of the selected tab *)

Lemma with_enabled_same a : Action.with_enabled (Action._enabled a) a = a.
Proof. by destruct a. Qed.

Lemma retab_selected tab s h : selected (retab tab s h) = selected s.
Proof. unfold retab. destruct (_actions s !! h.1); [case_bool_decide|]; done. Qed.

Lemma retab_actions tab s h q :
  _actions (retab tab s h) !! q =
    if decide (h.1 = q)
    then Action.with_enabled (isinstance tab h.2) <$> _actions s !! q
    else _actions s !! q.
Proof.
  unfold retab. destruct (decide (h.1 = q)) as [<-|Hne].
  - destruct (_actions s !! h.1) as [a|] eqn:Ha; [|by rewrite Ha].
    case_bool_decide as Hb.
    + rewrite Ha. simpl. by rewrite <- Hb, with_enabled_same.
    + simpl. by rewrite lookup_insert_eq.
  - destruct (_actions s !! h.1) as [a|]; [|done].
    case_bool_decide; [done|]. simpl. by rewrite lookup_insert_ne.
Qed.

Lemma retab_generated tab s h :
  generated (retab tab s h) = generated s ++ retab_events tab s h.
Proof.
  unfold retab, retab_events. destruct (_actions s !! h.1) as [a|].
  - case_bool_decide; [by rewrite app_nil_r | done].
  - by rewrite app_nil_r.
Qed.

Lemma retab_frame tab s h :
  _order (retab tab s h) = _order s ∧ tk_vars (retab tab s h) = tk_vars s ∧
  warned (retab tab s h) = warned s ∧ tab_changed (retab tab s h) = tab_changed s ∧
  bound (retab tab s h) = bound s ∧ called (retab tab s h) = called s.
Proof.
  unfold retab. destruct (_actions s !! h.1); [case_bool_decide|]; done.
Qed.

Lemma same_skeleton_retab tab s h : same_skeleton s (retab tab s h).
Proof.
  unfold retab. destruct (_actions s !! h.1) as [a|] eqn:Ha;
    [case_bool_decide|]; try apply same_skeleton_refl.
  by apply same_skeleton_switched.
Qed.

Lemma enable_or_disable_spec s p cls :
  is_Some (_actions s !! p) →
  enable_or_disable p cls s = Ok tt (retab (selected s) s (p, cls)).
Proof.
  intros [a Ha]. unfold enable_or_disable, bind, gets.
  rewrite (enabled_setter_spec s p a _ Ha). unfold retab. simpl. by rewrite Ha.
Qed.

Lemma run_tab_changed_spec hs : ∀ s,
  (∀ h, h ∈ hs → is_Some (_actions s !! h.1)) →
  run_tab_changed hs s = Ok tt (foldl (retab (selected s)) s hs).
Proof.
  induction hs as [|[p cls] hs IH]; intros s Hreg; [reflexivity|].
  simpl. unfold bind.
  rewrite enable_or_disable_spec by (apply (Hreg (p, cls)); by left).
  rewrite IH.
  - by rewrite retab_selected.
  - intros h Hh. rewrite retab_actions.
    destruct (Hreg h) as [a Ha]; [by right|].
    case_decide; rewrite Ha; simpl; eauto.
Qed.

Lemma foldl_retab_frame tab hs : ∀ s,
  selected (foldl (retab tab) s hs) = selected s ∧
  tab_changed (foldl (retab tab) s hs) = tab_changed s ∧
  same_skeleton s (foldl (retab tab) s hs).
Proof.
  induction hs as [|h hs IH]; intros s; simpl.
  - split; [done|]. split; [done | apply same_skeleton_refl].
  - destruct (IH (retab tab s h)) as (-> & -> & Hsk).
    split; [apply retab_selected|].
    split; [apply retab_frame|].
    eapply same_skeleton_trans; [apply same_skeleton_retab | exact Hsk].
Qed.

Lemma foldl_retab_other tab hs : ∀ s q,
  q ∉ hs.*1 →
  _actions (foldl (retab tab) s hs) !! q = _actions s !! q.
Proof.
  induction hs as [|h hs IH]; intros s q Hq; [done|].
  simpl in *. apply not_elem_of_cons in Hq as [Hne Hq].
  rewrite IH by done. rewrite retab_actions. by rewrite decide_False.
Qed.

Lemma foldl_retab_at tab hs : ∀ s p cls a,
  NoDup hs.*1 → (p, cls) ∈ hs → _actions s !! p = Some a →
  _actions (foldl (retab tab) s hs) !! p =
    Some (Action.with_enabled (isinstance tab cls) a).
Proof.
  induction hs as [|h hs IH]; intros s p cls a Hnd Hin Ha.
  - by apply elem_of_nil in Hin.
  - simpl in *. apply NoDup_cons in Hnd as [Hh Hnd].
    apply elem_of_cons in Hin as [<-|Hin].
    + rewrite foldl_retab_other by done.
      rewrite retab_actions. simpl. rewrite decide_True by done. by rewrite Ha.
    + apply (IH _ p cls a Hnd Hin). rewrite retab_actions.
      rewrite decide_False; [done|].
      intros Heq. apply Hh. rewrite Heq.
      apply list_elem_of_fmap. by exists (p, cls).
Qed.

Lemma retab_events_other tab s h h' :
  h.1 ≠ h'.1 → retab_events tab (retab tab s h) h' = retab_events tab s h'.
Proof.
  intros Hne. unfold retab_events. rewrite retab_actions.
  by rewrite decide_False.
Qed.

Lemma flat_map_agree {A B} (f g : A → list B) l :
  (∀ x, x ∈ l → f x = g x) → flat_map f l = flat_map g l.
Proof.
  induction l as [|x l IH]; intros H; [done|].
  simpl. rewrite (H x) by (by left). rewrite IH; [done|].
  intros y Hy. apply H. by right.
Qed.

Lemma foldl_retab_generated tab hs : ∀ s,
  NoDup hs.*1 →
  generated (foldl (retab tab) s hs) = generated s ++ flat_map (retab_events tab s) hs.
Proof.
  induction hs as [|h hs IH]; intros s Hnd; simpl.
  - by rewrite app_nil_r.
  - apply NoDup_cons in Hnd as [Hh Hnd].
    rewrite IH by done. rewrite retab_generated, <- app_assoc. do 2 f_equal.
    apply flat_map_agree. intros h' Hh'. apply retab_events_other.
    intros Heq. apply Hh. rewrite Heq. apply list_elem_of_fmap.
    by exists h'.
Qed.

Lemma carrying_retab_events tab s h p :
  wf s →
  carrying p (retab_events tab s h) =
    if decide (h.1 = p) then retab_events tab s h else [].
Proof.
  intros Hwf. unfold retab_events, carrying.
  destruct (_actions s !! h.1) as [a|] eqn:Ha; [|by case_decide].
  pose proof (wf_path s Hwf _ a Ha) as Hp.
  case_bool_decide; [by case_decide|].
  rewrite filter_cons. simpl. rewrite Hp. by repeat case_decide.
Qed.

Lemma carrying_flat_map tab s p cls hs :
  wf s → NoDup hs.*1 → (p, cls) ∈ hs →
  carrying p (flat_map (retab_events tab s) hs) = retab_events tab s (p, cls).
Proof.
  intros Hwf. induction hs as [|h hs IH]; intros Hnd Hin.
  - by apply elem_of_nil in Hin.
  - simpl in *. apply NoDup_cons in Hnd as [Hh Hnd].
    unfold carrying in *. rewrite filter_app.
    fold (carrying p (retab_events tab s h)).
    rewrite carrying_retab_events by done.
    apply elem_of_cons in Hin as [<-|Hin].
    + simpl. rewrite decide_True by done.
      assert (Hnil : filter (λ e : string * string, e.2 = p)
                (flat_map (retab_events tab s) hs) = []).
      { clear IH Hnd. induction hs as [|h' hs IH']; [done|].
        simpl in *. apply not_elem_of_cons in Hh as [Hne Hh].
        rewrite filter_app. fold (carrying p (retab_events tab s h')).
        rewrite carrying_retab_events by done.
        rewrite decide_False by done. by apply IH'. }
      rewrite Hnil. by rewrite app_nil_r.
    + rewrite decide_False.
      * by apply IH.
      * intros Heq. apply Hh. rewrite Heq. apply list_elem_of_fmap.
        by exists (p, cls).
Qed.

Lemma add_any_action_enabled p k cc b var tts s :
  enabled_at_registration tts s p (_add_any_action p k cc b var (Some tts) s).
Proof.
  intros a s' H. apply add_any_action_Ok in H
    as (a0 & s1 & _ & _ & _ & _ & -> & _ & _ & _ & Hg & _ & _ & Ht & _).
  simpl in *. split; [done|]. split; [|done].
  rewrite Ht. apply elem_of_app. right. by left.
Qed.

Lemma enabled_at_registration_from tts s s1 p r :
  same_registry s s1 →
  enabled_at_registration tts s1 p r → enabled_at_registration tts s p r.
Proof.
  intros Hsr H a s' E. destruct (H a s' E) as (He & Ht & Hg).
  by rewrite (sr_selected _ _ Hsr), (sr_generated _ _ Hsr) in *.
Qed.

Lemma isinstance_spec tab tts :
  isinstance tab (actual_tabtypes tts) = true ↔
  ∃ cls, cls ∈ tts ∧
    cls_name (match cls with None => NoneType | Some c => c end) ∈ mro (type_of tab).
Proof.
  unfold isinstance, actual_tabtypes, issubclass. rewrite existsb_exists. split.
  - intros (c & Hc & Hsub). apply in_map_iff in Hc as (cls & <- & Hcls).
    exists cls. split; [by apply list_elem_of_In|].
    by apply bool_decide_eq_true in Hsub.
  - intros (cls & Hcls & Hsub). eexists. split.
    + apply in_map_iff. exists cls. split; [reflexivity|]. by apply list_elem_of_In.
    + by apply bool_decide_eq_true.
Qed.

Lemma notebook_tab_changed_spec s tab :
  wf s →
  notebook_tab_changed tab s =
    Ok tt (foldl (retab tab) (set_selected tab s) (tab_changed s)).
Proof.
  intros Hwf. unfold notebook_tab_changed, bind, modify, gets.
  rewrite run_tab_changed_spec; [done|].
  intros h Hh. by apply (wf_tab_changed s Hwf).
Qed.

Lemma notebook_tab_changed_wf s tab :
  wf s → wf (state_of (notebook_tab_changed tab s)).
Proof.
  intros Hwf. rewrite notebook_tab_changed_spec by done. simpl.
  eapply wf_same_skeleton; [|apply foldl_retab_frame].
  eapply wf_same_skeleton; [exact Hwf|]. by constructor.
Qed.

(** C5 (as amended): the flag of an action registered with [tabtypes] is
    the [isinstance] test of the selected tab against the filter, at the
    registration and after every change of the selected tab: the action is
    enabled if and only if the class of the tab, or one of its ancestors, is
    in the filter ([None] in the filter standing for the class of [None], no
    tab).  The flag is written through the setter: the events for the action
    are one [<<ActionEnabled>>] or [<<ActionDisabled>>] when the flag
    changes and none when it does not.  A tab whose own class is in the
    filter enables the action; the converse does not hold. *)
Theorem C5_enabled_follows_isinstance :
  (∀ s p tts, wf s →
     (∀ cb kb, enabled_at_registration tts s p (add_command p cb kb (Some tts) s)) ∧
     (∀ dflt kb var,
        enabled_at_registration tts s p (add_yesno p dflt kb var (Some tts) s)) ∧
     (∀ cs dflt var,
        enabled_at_registration tts s p (add_choice p cs dflt var (Some tts) s))) ∧
  (∀ s p cls a tab,
     wf s → (p, cls) ∈ tab_changed s → _actions s !! p = Some a →
     ∃ s' evs, notebook_tab_changed tab s = Ok tt s' ∧
       selected s' = tab ∧
       _actions s' !! p = Some (Action.with_enabled (isinstance tab cls) a) ∧
       generated s' = generated s ++ evs ∧
       carrying p evs =
         (if bool_decide (Action._enabled a = isinstance tab cls) then []
          else [(if isinstance tab cls then "<<ActionEnabled>>"
                 else "<<ActionDisabled>>", p)]) ∧
       tab_changed s' = tab_changed s ∧ wf s') ∧
  (∀ tab tts,
     (isinstance tab (actual_tabtypes tts) = true ↔
      ∃ cls, cls ∈ tts ∧
        cls_name (match cls with None => NoneType | Some c => c end) ∈ mro (type_of tab)) ∧
     (type_in_filter tab tts = true → isinstance tab (actual_tabtypes tts) = true)).
Proof.
  split; [|split].
  - intros s p tts Hwf. split; [|split].
    + intros cb kb. apply add_any_action_enabled.
    + intros dflt kb var. rewrite add_yesno_unfold.
      destruct (add_yesno_var_frame s dflt var Hwf) as (Hsr & _).
      destruct (add_yesno_var dflt var s) as [v s1|e s1]; [|by intros a s' ?].
      eapply enabled_at_registration_from; [exact Hsr|].
      apply add_any_action_enabled.
    + intros cs dflt var. rewrite add_choice_unfold.
      destruct (add_choice_var_frame s cs dflt var Hwf) as (Hsr & _).
      destruct (add_choice_var cs dflt var s) as [v s1|e s1]; [|by intros a s' ?].
      eapply enabled_at_registration_from; [exact Hsr|].
      apply add_any_action_enabled.
  - intros s p cls a tab Hwf Hin Ha.
    pose proof (notebook_tab_changed_wf s tab Hwf) as Hwf'.
    rewrite notebook_tab_changed_spec in * by done. simpl in Hwf'.
    set (s0 := set_selected tab s) in *.
    assert (Hwf0 : wf s0) by (eapply wf_same_skeleton; [exact Hwf | by constructor]).
    pose proof (wf_tab_changed_nodup s Hwf) as Hnd.
    exists (foldl (retab tab) s0 (tab_changed s)),
           (flat_map (retab_events tab s0) (tab_changed s)).
    split; [done|].
    destruct (foldl_retab_frame tab (tab_changed s) s0) as (Hsel & Htab & _).
    split; [by rewrite Hsel|].
    split; [by apply foldl_retab_at|].
    split; [by rewrite foldl_retab_generated|].
    split; [|by split].
    rewrite (carrying_flat_map tab s0 p cls) by done.
    unfold retab_events. simpl. rewrite Ha.
    rewrite (wf_path s Hwf p a Ha). unfold enabled_event. done.
  - intros tab tts. split; [apply isinstance_spec|].
    unfold type_in_filter. intros H%bool_decide_eq_true.
    apply isinstance_spec. unfold actual_tabtypes in H.
    apply list_elem_of_fmap in H as (cls & Hcls & Hin).
    exists cls. split; [done|]. rewrite <- Hcls. by left.
Qed.

Lemma C5_witness :
  wf registry_close_tab ∧
  ("File/Close", [Tab]) ∈ tab_changed registry_close_tab ∧
  _actions registry_close_tab !! "File/Close" =
    Some (Action.Make "File/Close" command (Some "<Control-w>") true (Some 7) None None) ∧
  ∃ s' evs, notebook_tab_changed None registry_close_tab = Ok tt s' ∧
    Action._enabled <$> _actions s' !! "File/Close" = Some false ∧
    generated s' = generated registry_close_tab ++ evs ∧
    carrying "File/Close" evs = [("<<ActionDisabled>>", "File/Close")].
Proof.
  assert (H : _actions registry_close_tab !! "File/Close" =
    Some (Action.Make "File/Close" command (Some "<Control-w>") true (Some 7) None None))
    by (vm_compute; reflexivity).
  assert (Hin : ("File/Close", [Tab]) ∈ tab_changed registry_close_tab)
    by (vm_compute; by left).
  split; [apply registry_close_tab_wf|]. split; [exact Hin|]. split; [exact H|].
  destruct (proj1 (proj2 C5_enabled_follows_isinstance) registry_close_tab
              "File/Close" [Tab] _ None registry_close_tab_wf Hin H)
    as (s' & evs & Hrun & _ & Ha & Hg & Hc & _).
  exists s', evs. split; [exact Hrun|]. split; [by rewrite Ha|].
  split; [exact Hg | exact Hc].
Defined.

(** C5, as it was stated, fails: with the filter [[tabs.Tab]] and a file tab
    selected, the class of the selected tab is not in the filter, but the
    tab is an instance of [tabs.Tab] and the registered action is enabled. *)
Lemma C5_tab_of_a_subclass_enables :
  type_in_filter (Some FileTab) [Some Tab] = false ∧
  selected (initial (Some FileTab)) = Some FileTab ∧
  Action._enabled <$> value_of
    (add_command "File/Close" 7 (Some "<Control-w>") (Some [Some Tab])
       (initial (Some FileTab))) = Some true.
Proof. vm_compute. repeat split. Qed.

(** ** The invariant holds in every reachable state *)

Lemma enabled_setter_skeleton s p b :
  same_skeleton s (state_of (Action_enabled_setter p b s)).
Proof.
  destruct (_actions s !! p) as [a|] eqn:Ha.
  - rewrite (enabled_setter_spec s p a b Ha). simpl.
    case_bool_decide; [apply same_skeleton_refl|].
    by apply same_skeleton_switched.
  - unfold Action_enabled_setter, bind, get_object. rewrite Ha.
    apply same_skeleton_refl.
Qed.

Lemma var_set_skeleton s v x : wf s → same_skeleton s (state_of (var_set v x s)).
Proof.
  intros Hwf. rewrite var_set_wf by done. apply same_skeleton_written.
Qed.

Lemma new_variable_skeleton s init :
  same_skeleton s (state_of (new_variable init s)).
Proof.
  unfold new_variable. simpl.
  apply (same_skeleton_allocated (fresh_var s)), fresh_var_None.
Qed.

Lemma bind_callback_skeleton s p k :
  wf s → same_skeleton s (state_of (bind_callback p k s)).
Proof.
  intros Hwf. unfold bind_callback, bind, get_object.
  destruct (_actions s !! p) as [a|]; [|apply same_skeleton_refl].
  destruct (Action._enabled a); [|apply same_skeleton_refl].
  destruct k.
  - unfold attribute. destruct (Action.callback a) as [f|];
      [|apply same_skeleton_refl].
    by constructor.
  - apply same_skeleton_refl.
  - unfold attribute, ret. destruct (Action.var a) as [v|];
      [|apply same_skeleton_refl].
    unfold get_boolean, bind, var_get.
    destruct (tk_vars s !! v) as [c|]; [|apply same_skeleton_refl].
    destruct (content c) as [b|t]; [|apply same_skeleton_refl].
    unfold ret. rewrite var_set_wf by done. apply same_skeleton_written.
Qed.

Lemma run_scripts_skeleton hs : ∀ s,
  wf s → same_skeleton s (state_of (run_scripts hs s)).
Proof.
  induction hs as [|h hs IH]; intros s Hwf; [apply same_skeleton_refl|].
  simpl. unfold bind.
  assert (Hh : same_skeleton s (state_of (run_handler h s))).
  { destruct h as [p k|f r]; simpl; [by apply bind_callback_skeleton|].
    by constructor. }
  destruct (run_handler h s) as [[|] s1|e s1]; simpl in *; [done | | done].
  eapply same_skeleton_trans; [exact Hh|].
  apply IH. by eapply wf_same_skeleton.
Qed.

Lemma key_event_skeleton s bindtags sequence :
  wf s → same_skeleton s (state_of (key_event bindtags sequence s)).
Proof. intros Hwf. unfold key_event, bind, gets. by apply run_scripts_skeleton. Qed.

Lemma notebook_tab_changed_skeleton s tab :
  wf s → same_skeleton s (state_of (notebook_tab_changed tab s)).
Proof.
  intros Hwf. rewrite notebook_tab_changed_spec by done. simpl.
  eapply same_skeleton_trans; [|apply foldl_retab_frame]. by constructor.
Qed.

Lemma same_skeleton_keeps s s' : same_skeleton s s' → keeps s s'.
Proof.
  intros Hsk. split.
  - intros h. by rewrite (sk_tab_changed _ _ Hsk).
  - intros q [a Ha]. pose proof (sk_actions _ _ Hsk q) as E. rewrite Ha in E.
    destruct (_actions s' !! q); [eauto | discriminate].
Qed.

Lemma keeps_trans s1 s2 s3 : keeps s1 s2 → keeps s2 s3 → keeps s1 s3.
Proof. intros [H1 A1] [H2 A2]. split; eauto. Qed.

Lemma add_any_action_keeps p k cc b var tts s :
  b = None ∨ k ≠ choice →
  keeps s (state_of (_add_any_action p k cc b var tts s)).
Proof.
  intros Hb.
  destruct (_add_any_action p k cc b var tts s) as [a s'|e s'] eqn:E; simpl.
  - apply add_any_action_Ok in E
      as (a0 & s1 & _ & _ & _ & _ & _ & Hact & _ & _ & _ & _ & _ & Htab & _).
    split.
    + intros h Hh. rewrite Htab. apply elem_of_app. by left.
    + intros q Hq. rewrite Hact. apply lookup_insert_is_Some'. by right.
  - apply add_any_action_Raise in E as [-> _]; [|done].
    apply same_skeleton_keeps, same_skeleton_refl.
Qed.

Lemma step_keeps s s' : wf s → step s s' → keeps s s'.
Proof.
  intros Hwf Hstep. destruct Hstep.
  - apply add_any_action_keeps. by right.
  - rewrite add_yesno_unfold.
    destruct (add_yesno_var_frame s dflt var Hwf) as (_ & Hsk & _).
    destruct (add_yesno_var dflt var s) as [v s1|e s1]; simpl in *.
    + eapply keeps_trans; [by apply same_skeleton_keeps|].
      apply add_any_action_keeps. by right.
    + by apply same_skeleton_keeps.
  - rewrite add_choice_unfold.
    destruct (add_choice_var_frame s cs dflt var Hwf) as (_ & Hsk & _).
    destruct (add_choice_var cs dflt var s) as [v s1|e s1]; simpl in *.
    + eapply keeps_trans; [by apply same_skeleton_keeps|].
      apply add_any_action_keeps. by left.
    + by apply same_skeleton_keeps.
  - by apply same_skeleton_keeps, var_set_skeleton.
  - apply same_skeleton_keeps, new_variable_skeleton.
  - apply same_skeleton_keeps, enabled_setter_skeleton.
  - by apply same_skeleton_keeps, notebook_tab_changed_skeleton.
  - by apply same_skeleton_keeps, key_event_skeleton.
  - apply same_skeleton_keeps. by constructor.
Qed.

Lemma step_wf s s' : wf s → step s s' → wf s'.
Proof.
  intros Hwf Hstep. destruct Hstep.
  - by apply add_command_wf.
  - by apply add_yesno_wf.
  - by apply add_choice_wf.
  - eapply wf_same_skeleton; [done | by apply var_set_skeleton].
  - eapply wf_same_skeleton; [done | apply new_variable_skeleton].
  - eapply wf_same_skeleton; [done | apply enabled_setter_skeleton].
  - by apply notebook_tab_changed_wf.
  - eapply wf_same_skeleton; [done | by apply key_event_skeleton].
  - eapply wf_same_skeleton; [done | by constructor].
Qed.

Theorem reachable_wf s : reachable s → wf s.
Proof.
  induction 1 as [tab|s s' _ IH Hstep]; [apply wf_initial|].
  by eapply step_wf.
Qed.

(** Once bound, the [enable_or_disable] of an action stays bound, and the
    action stays registered, whatever happens next. *)
Theorem later_keeps s s' : wf s → rtc step s s' → wf s' ∧ keeps s s'.
Proof.
  intros Hwf Hrtc. induction Hrtc as [s|s s1 s' Hstep _ IH].
  - split; [done|]. apply same_skeleton_keeps, same_skeleton_refl.
  - destruct IH as [Hwf' Hk]; [by eapply step_wf|].
    split; [done|]. eapply keeps_trans; [by apply step_keeps | exact Hk].
Qed.

(** * Further properties *)

(** ** The order of the registry *)

Lemma skeleton_keys s s' :
  same_skeleton s s' → ∀ p, is_Some (_actions s' !! p) ↔ is_Some (_actions s !! p).
Proof.
  intros Hsk p. pose proof (sk_actions _ _ Hsk p) as E.
  destruct (_actions s' !! p), (_actions s !! p); try discriminate; split; eauto.
  all: by intros [? ?].
Qed.

Lemma same_keys_refl s : same_keys s s.
Proof. by split. Qed.

Lemma same_keys_trans s1 s2 s3 : same_keys s1 s2 → same_keys s2 s3 → same_keys s1 s3.
Proof.
  intros [O1 K1] [O2 K2]. split; [congruence|].
  intros p. by rewrite K2, K1.
Qed.

Lemma ordered_same_keys s s' : ordered s → same_keys s s' → ordered s'.
Proof.
  intros [Hnd Hk] [Ho Hd]. constructor; rewrite Ho; [done|].
  intros p. by rewrite Hd.
Qed.

Lemma same_registry_keys s s' : same_registry s s' → same_keys s s'.
Proof. intros Hsr. split; [apply Hsr|]. intros p. by rewrite (sr_actions _ _ Hsr). Qed.

Lemma switched_keys s p a b : _actions s !! p = Some a → same_keys s (switched p a b s).
Proof.
  intros Ha. split; [done|]. apply skeleton_keys.
  by apply same_skeleton_switched.
Qed.

Lemma enabled_setter_keys s p b : same_keys s (state_of (Action_enabled_setter p b s)).
Proof.
  destruct (_actions s !! p) as [a|] eqn:Ha.
  - rewrite (enabled_setter_spec s p a b Ha). simpl.
    case_bool_decide; [apply same_keys_refl | by apply switched_keys].
  - unfold Action_enabled_setter, bind, get_object. rewrite Ha.
    apply same_keys_refl.
Qed.

Lemma retab_keys tab s h : same_keys s (retab tab s h).
Proof.
  split; [apply retab_frame|]. apply skeleton_keys, same_skeleton_retab.
Qed.

Lemma foldl_retab_keys tab hs : ∀ s, same_keys s (foldl (retab tab) s hs).
Proof.
  induction hs as [|h hs IH]; intros s; [apply same_keys_refl|].
  simpl. eapply same_keys_trans; [apply retab_keys | apply IH].
Qed.

Lemma notebook_tab_changed_keys s tab :
  wf s → same_keys s (state_of (notebook_tab_changed tab s)).
Proof.
  intros Hwf. rewrite notebook_tab_changed_spec by done. simpl.
  eapply same_keys_trans; [|apply foldl_retab_keys]. by split.
Qed.

Lemma bind_callback_keys s p k : wf s → same_keys s (state_of (bind_callback p k s)).
Proof.
  intros Hwf. split; [|by apply skeleton_keys, bind_callback_skeleton].
  unfold bind_callback, bind, get_object.
  destruct (_actions s !! p) as [a|]; [|done].
  destruct (Action._enabled a); [|done].
  destruct k.
  - unfold attribute. by destruct (Action.callback a).
  - done.
  - unfold attribute, ret. destruct (Action.var a) as [v|]; [|done].
    unfold get_boolean, bind, var_get.
    destruct (tk_vars s !! v) as [c|]; [|done].
    destruct (content c) as [b|t]; [|done].
    unfold ret. by rewrite var_set_wf.
Qed.

Lemma run_scripts_keys hs : ∀ s, wf s → same_keys s (state_of (run_scripts hs s)).
Proof.
  induction hs as [|h hs IH]; intros s Hwf; [apply same_keys_refl|].
  simpl. unfold bind.
  assert (Hh : same_keys s (state_of (run_handler h s)) ∧
               wf (state_of (run_handler h s))).
  { destruct h as [p k|f r]; simpl.
    - split; [by apply bind_callback_keys|].
      eapply wf_same_skeleton; [exact Hwf | by apply bind_callback_skeleton].
    - split; [by split|]. eapply wf_same_skeleton; [exact Hwf | by constructor]. }
  destruct Hh as [Hk Hwf1].
  destruct (run_handler h s) as [[|] s1|e s1]; simpl in *; [done | | done].
  eapply same_keys_trans; [exact Hk | by apply IH].
Qed.

Lemma add_any_action_ordered p k cc b var tts s :
  ordered s → b = None ∨ k ≠ choice →
  ordered (state_of (_add_any_action p k cc b var tts s)).
Proof.
  intros [Hnd Hk] Hb.
  destruct (_add_any_action p k cc b var tts s) as [a s'|e s'] eqn:E; simpl.
  - apply add_any_action_Ok in E
      as (a0 & s1 & _ & _ & Hnone & _ & _ & Hact & Hord & _).
    assert (Hp : p ∉ _order s).
    { rewrite Hk, Hnone. by intros [? ?]. }
    constructor; rewrite Hord.
    + apply NoDup_app. split; [done|]. split; [|apply NoDup_singleton].
      intros q Hq ->%list_elem_of_singleton. done.
    + intros q. rewrite Hact, elem_of_app, list_elem_of_singleton, Hk.
      rewrite lookup_insert_is_Some'. split; intros [?|?]; eauto.
  - apply add_any_action_Raise in E as [-> _]; done.
Qed.

Lemma step_ordered s s' : wf s → ordered s → step s s' → ordered s'.
Proof.
  intros Hwf Ho Hstep. destruct Hstep.
  - apply add_any_action_ordered; [done | by right].
  - rewrite add_yesno_unfold.
    destruct (add_yesno_var_frame s dflt var Hwf) as (Hsr & _).
    apply same_registry_keys in Hsr.
    destruct (add_yesno_var dflt var s) as [v s1|e s1]; simpl in *.
    + apply add_any_action_ordered; [by eapply ordered_same_keys | by right].
    + by eapply ordered_same_keys.
  - rewrite add_choice_unfold.
    destruct (add_choice_var_frame s cs dflt var Hwf) as (Hsr & _).
    apply same_registry_keys in Hsr.
    destruct (add_choice_var cs dflt var s) as [v s1|e s1]; simpl in *.
    + apply add_any_action_ordered; [by eapply ordered_same_keys | by left].
    + by eapply ordered_same_keys.
  - rewrite var_set_wf by done. eapply ordered_same_keys; [done | by split].
  - eapply ordered_same_keys; [done | by split].
  - eapply ordered_same_keys; [done | apply enabled_setter_keys].
  - eapply ordered_same_keys; [done | by apply notebook_tab_changed_keys].
  - eapply ordered_same_keys; [done|].
    unfold key_event, bind, gets. by apply run_scripts_keys.
  - eapply ordered_same_keys; [done | by split].
Qed.

Lemma reachable_ordered s : reachable s → wf s ∧ ordered s.
Proof.
  induction 1 as [tab|s s' _ [Hwf Ho] Hstep].
  - split; [apply wf_initial|]. constructor; simpl; [constructor|].
    intros p. rewrite lookup_empty. split; [by intros ?%elem_of_nil | by intros [? ?]].
  - split; [by eapply step_wf | by eapply step_ordered].
Qed.

Lemma omap_agree {A B} (f g : A → option B) (l : list A) :
  (∀ x, x ∈ l → f x = g x) → omap f l = omap g l.
Proof.
  induction l as [|x l IH]; intros H; [done|].
  assert (IH' : omap f l = omap g l).
  { apply IH. intros y Hy. apply H. by right. }
  simpl. rewrite (H x) by (by left).
  destruct (g x); [f_equal|]; exact IH'.
Qed.

Lemma paths_of_registered s l :
  wf s → (∀ p, p ∈ l → is_Some (_actions s !! p)) →
  map Action.path (omap (fun p => _actions s !! p) l) = l.
Proof.
  intros Hwf. induction l as [|p l IH]; intros H; [done|].
  destruct (H p) as [a Ha]; [by left|].
  assert (IH' : map Action.path (omap (fun p => _actions s !! p) l) = l).
  { apply IH. intros q Hq. apply H. by right. }
  simpl. rewrite Ha. simpl. rewrite (wf_path s Hwf p a Ha).
  f_equal. exact IH'.
Qed.

Lemma order_length s : ordered s → length (_order s) = size (_actions s).
Proof.
  intros [Hnd Hk]. rewrite <- size_dom. unfold size, set_size. simpl.
  apply Permutation_length, NoDup_Permutation; [done | apply NoDup_elements |].
  intros p. by rewrite elem_of_elements, elem_of_dom, Hk.
Qed.

(** X1: in every reachable state [get_all_actions] returns the registered
    actions, each once, in the order of their registration: the paths of the
    list are the insertion order, without repetition, an action is in the
    list exactly when it is the entry of its path, and the list is as long
    as the registry is large. *)
Theorem X1_get_all_actions_lists_the_registry s :
  reachable s →
  ∃ l, get_all_actions s = Ok l s ∧
    map Action.path l = _order s ∧ NoDup (map Action.path l) ∧
    (∀ p a, _actions s !! p = Some a ↔ a ∈ l ∧ Action.path a = p) ∧
    length l = size (_actions s).
Proof.
  intros Hr. destruct (reachable_ordered s Hr) as [Hwf Ho].
  exists (all_actions s). split; [reflexivity|].
  assert (Hp : map Action.path (all_actions s) = _order s).
  { apply paths_of_registered; [done|]. intros p. apply (ord_keys s Ho). }
  split; [exact Hp|]. split; [rewrite Hp; apply (ord_nodup s Ho)|].
  split.
  - intros p a. unfold all_actions. rewrite list_elem_of_omap. split.
    + intros Ha. split; [|by eapply wf_path].
      exists p. split; [|done]. apply (ord_keys s Ho). eauto.
    + intros [(q & _ & Hq) Hpa].
      by rewrite <- Hpa, (wf_path s Hwf q a Hq).
  - rewrite <- (order_length s Ho), <- Hp. by rewrite length_map.
Qed.

Lemma registry_two_themes_reachable : reachable registry_two_themes.
Proof.
  unfold registry_two_themes, registry_theme.
  eapply reachable_step; [eapply reachable_step; [apply reachable_initial|]|].
  - apply step_add_choice.
  - apply step_add_choice.
Qed.

Lemma X1_witness :
  reachable registry_two_themes ∧
  ∃ l, get_all_actions registry_two_themes = Ok l registry_two_themes ∧
    map Action.path l = ["View/Theme"; "Edit/Theme"] ∧ length l = 2.
Proof.
  split; [apply registry_two_themes_reachable|].
  destruct (X1_get_all_actions_lists_the_registry registry_two_themes
              registry_two_themes_reachable) as (l & Hl & Hp & _ & _ & Hlen).
  exists l. split; [exact Hl|]. split.
  - rewrite Hp. vm_compute. reflexivity.
  - rewrite Hlen. vm_compute. reflexivity.
Defined.

(** ** What a registration adds and what it keeps *)

Lemma add_any_action_appended p k cc b var tts s :
  ordered s → appended s p (_add_any_action p k cc b var tts s).
Proof.
  intros Ho a s' E. apply add_any_action_Ok in E
      as (a0 & s1 & _ & _ & Hnone & _ & _ & Hact & Hord & _).
  split.
  - unfold get_all_actions, gets, all_actions. f_equal.
    rewrite Hord, Hact, omap_app. simpl. rewrite lookup_insert_eq. f_equal.
    apply omap_agree. intros q Hq. apply lookup_insert_ne. intros <-.
    apply (ord_keys s Ho) in Hq as [? ?]. congruence.
  - intros q Hq. rewrite Hact. by apply lookup_insert_ne.
Qed.

Lemma appended_from s s1 p r :
  same_registry s s1 → appended s1 p r → appended s p r.
Proof.
  intros Hsr H a s' E. destruct (H a s' E) as [Hall Hother].
  unfold all_actions in *.
  by rewrite (sr_actions _ _ Hsr), (sr_order _ _ Hsr) in *.
Qed.

(** X2: a registration that returns puts its action at the end of the list
    of [get_all_actions], after the actions that were there, and leaves
    every other entry of the registry as it was, [enabled] flag included. *)
Theorem X2_registration_appends s p :
  wf s → ordered s →
  (∀ cb kb tts, appended s p (add_command p cb kb tts s)) ∧
  (∀ dflt kb var tts, appended s p (add_yesno p dflt kb var tts s)) ∧
  (∀ cs dflt var tts, appended s p (add_choice p cs dflt var tts s)).
Proof.
  intros Hwf Ho. split; [|split].
  - intros cb kb tts. by apply add_any_action_appended.
  - intros dflt kb var tts. rewrite add_yesno_unfold.
    destruct (add_yesno_var_frame s dflt var Hwf) as (Hsr & _).
    destruct (add_yesno_var dflt var s) as [v s1|e s1]; [|by intros a s' ?].
    eapply appended_from; [exact Hsr|]. apply add_any_action_appended.
    eapply ordered_same_keys; [exact Ho | by apply same_registry_keys].
  - intros cs dflt var tts. rewrite add_choice_unfold.
    destruct (add_choice_var_frame s cs dflt var Hwf) as (Hsr & _).
    destruct (add_choice_var cs dflt var s) as [v s1|e s1]; [|by intros a s' ?].
    eapply appended_from; [exact Hsr|]. apply add_any_action_appended.
    eapply ordered_same_keys; [exact Ho | by apply same_registry_keys].
Qed.

Lemma registry_theme_reachable : reachable registry_theme.
Proof.
  unfold registry_theme. eapply reachable_step; [apply reachable_initial|].
  apply step_add_choice.
Qed.

Lemma X2_witness :
  wf registry_theme ∧ ordered registry_theme ∧
  ∃ a s', add_command "File/Quit" 4 None None registry_theme = Ok a s' ∧
    get_all_actions s' = Ok (all_actions registry_theme ++ [a]) s'.
Proof.
  destruct (reachable_ordered registry_theme registry_theme_reachable) as [Hwf Ho].
  split; [exact Hwf|]. split; [exact Ho|].
  destruct (add_command_succeeds "File/Quit" 4 None None registry_theme)
    as (a & s' & E); [reflexivity | reflexivity | vm_compute; reflexivity |].
  exists a, s'. split; [exact E|].
  by apply (proj1 (X2_registration_appends registry_theme "File/Quit" Hwf Ho)
              4 None None a s' E).
Defined.

(** ** The outcome of a registration *)

Lemma path_check_same s s1 p : same_registry s s1 → path_check s1 p = path_check s p.
Proof. intros Hsr. unfold path_check. by rewrite (sr_actions _ _ Hsr). Qed.

Lemma add_any_action_raised p k cc b var tts s a0 s0 :
  Action_init p k cc b var s = Ok a0 s0 → b = None ∨ k ≠ choice →
  raised (_add_any_action p k cc b var tts s) = path_check s p.
Proof.
  intros Hinit Hb. unfold path_check.
  destruct (startswith p slash || endswith p slash) eqn:Hp.
  - by rewrite add_any_action_invalid_path.
  - case_bool_decide as Hreg.
    + by rewrite add_any_action_duplicate.
    + apply orb_false_elim in Hp as [Hs He].
      destruct (add_any_action_succeeds p k cc b var tts s a0 s0)
        as (a & s' & ->); try done.
      destruct (_actions s !! p) eqn:E; [|done]. exfalso. apply Hreg. eauto.
Qed.

Lemma add_any_action_fails_on_path p k cc b var tts s e :
  path_check s p = Some e →
  _add_any_action p k cc b var tts s = Raise e s.
Proof.
  unfold path_check.
  destruct (startswith p slash || endswith p slash) eqn:Hp.
  - intros [= <-]. by apply add_any_action_invalid_path.
  - case_bool_decide as Hreg; [|discriminate].
    intros [= <-]. by apply add_any_action_duplicate.
Qed.

(** X3: the checks of a registration come in a fixed order: the entry
    point's own check of its arguments, then the syntax of the path, then
    its uniqueness, and the call raises the exception of the first check
    that fails, with or without a key binding.  A registration without a
    key binding (every [add_choice], whose variable, if one is given,
    exists) returns when no check fails: its outcome is decided by the
    three checks, and it raises nothing else (no failed assertion, no
    missing attribute). *)
Theorem X3_registration_outcome s p :
  wf s →
  (∀ cb kb tts e, path_check s p = Some e →
     raised (add_command p cb kb tts s) = Some e) ∧
  (∀ dflt kb var tts e,
     match yesno_check dflt var with
     | Some e' => Some e'
     | None => path_check s p
     end = Some e →
     raised (add_yesno p dflt kb var tts s) = Some e) ∧
  (∀ cb tts, raised (add_command p cb None tts s) = path_check s p) ∧
  (∀ dflt var tts,
     raised (add_yesno p dflt None var tts s) =
       match yesno_check dflt var with
       | Some e => Some e
       | None => path_check s p
       end) ∧
  (∀ cs dflt var tts,
     (∀ v, var = Some v → is_Some (tk_vars s !! v)) →
     raised (add_choice p cs dflt var tts s) =
       match choice_check cs dflt var s with
       | Some e => Some e
       | None => path_check s p
       end).
Proof.
  intros Hwf.
  assert (Hy : ∀ dflt kb var tts,
    (kb = None ∨ path_check s p ≠ None ∨ yesno_check dflt var ≠ None) →
    raised (add_yesno p dflt kb var tts s) =
      match yesno_check dflt var with
      | Some e => Some e
      | None => path_check s p
      end).
  { intros dflt kb var tts Hcase. rewrite add_yesno_unfold.
    rewrite <- (add_yesno_var_raised s dflt var Hwf).
    destruct (add_yesno_var_frame s dflt var Hwf) as (Hsr & _).
    pose proof (add_yesno_var_raised s dflt var Hwf) as Hchk.
    destruct (add_yesno_var dflt var s) as [v s1|e s1]; simpl in *; [|done].
    rewrite <- (path_check_same s s1 p Hsr).
    destruct (path_check s1 p) as [e|] eqn:Hpc.
    - by rewrite (add_any_action_fails_on_path _ _ _ _ _ _ _ _ Hpc).
    - destruct Hcase as [->|[Hne|Hne]].
      + rewrite <- Hpc. eapply add_any_action_raised; [reflexivity | by right].
      + rewrite <- (path_check_same s s1 p Hsr) in Hne. congruence.
      + congruence. }
  split; [|split; [|split; [|split]]].
  - intros cb kb tts e Hpc. unfold add_command.
    by rewrite (add_any_action_fails_on_path _ _ _ _ _ _ _ _ Hpc).
  - intros dflt kb var tts e He. rewrite Hy; [done|].
    destruct (yesno_check dflt var); [right; right; done|].
    right; left. congruence.
  - intros cb tts. eapply add_any_action_raised; [reflexivity | by left].
  - intros dflt var tts. apply Hy. by left.
  - intros cs dflt var tts _. rewrite add_choice_unfold.
    rewrite <- (add_choice_var_raised s cs dflt var Hwf).
    destruct (add_choice_var_frame s cs dflt var Hwf) as (Hsr & _).
    destruct (add_choice_var cs dflt var s) as [v s1|e s1] eqn:Hvar;
      simpl in *; [|done].
    rewrite <- (path_check_same s s1 p Hsr).
    destruct (add_choice_var_exists _ _ _ _ _ _ Hwf Hvar) as [c Hc].
    eapply add_any_action_raised; [|by left].
    unfold Action_init, bind, trace_add. rewrite Hc. reflexivity.
Qed.

Lemma X3_witness :
  wf registry_theme ∧
  raised (add_command "View/Theme" 0 (Some "<F5>") None registry_theme) =
    Some DuplicatePathError ∧
  raised (add_yesno "/View/Theme" None (Some "<F5>") None None registry_theme) =
    Some ConfigurationError ∧
  raised (add_command "View/Theme/" 0 None None registry_theme) = Some InvalidPathError ∧
  raised (add_yesno "View/Wrap" (Some true) None None None registry_theme) = None ∧
  raised (add_choice "View/Theme/" [] None None None registry_theme) = Some IndexError ∧
  raised (add_choice "View/Size" ["8"; "9"] None (Some 0) None registry_theme) =
    Some InvalidChoiceError ∧
  raised (add_choice "View/Size" ["8"; "9"] None None None registry_theme) = None.
Proof.
  destruct (X3_registration_outcome registry_theme "View/Theme" registry_theme_wf)
    as (Hc & _).
  destruct (X3_registration_outcome registry_theme "/View/Theme" registry_theme_wf)
    as (_ & Hy & _).
  destruct (X3_registration_outcome registry_theme "View/Theme/" registry_theme_wf)
    as (_ & _ & Hc0 & _ & Hch).
  destruct (X3_registration_outcome registry_theme "View/Wrap" registry_theme_wf)
    as (_ & _ & _ & Hy0 & _).
  destruct (X3_registration_outcome registry_theme "View/Size" registry_theme_wf)
    as (_ & _ & _ & _ & Hch').
  split; [apply registry_theme_wf|].
  split; [apply Hc; vm_compute; reflexivity|].
  split; [apply Hy; vm_compute; reflexivity|].
  split; [rewrite Hc0; vm_compute; reflexivity|].
  split; [rewrite Hy0; vm_compute; reflexivity|].
  split; [rewrite Hch by discriminate; vm_compute; reflexivity|].
  split.
  - rewrite Hch'; [vm_compute; reflexivity|].
    intros v [= <-]. vm_compute. eauto.
  - rewrite Hch' by discriminate. vm_compute. reflexivity.
Defined.

(** X4: a registration without a key binding that raises, whatever the
    exception, leaves the registry as it was: the mapping and its order (so
    [get_all_actions] returns the list it returned), the events generated,
    the selected tab, the tab manager's handlers, the key bindings and the
    callbacks run; [add_command] leaves the whole state as it was.  Nothing
    is half registered: every exception of such a call comes before the
    action is stored. *)
Theorem X4_failed_registration_keeps_registry s p :
  wf s →
  (∀ cb tts e s', add_command p cb None tts s = Raise e s' → s' = s) ∧
  (∀ dflt var tts e s', add_yesno p dflt None var tts s = Raise e s' →
     same_registry s s' ∧ get_all_actions s' = Ok (all_actions s) s') ∧
  (∀ cs dflt var tts e s', add_choice p cs dflt var tts s = Raise e s' →
     same_registry s s' ∧ get_all_actions s' = Ok (all_actions s) s').
Proof.
  intros Hwf.
  assert (Hall : ∀ s', same_registry s s' →
            same_registry s s' ∧ get_all_actions s' = Ok (all_actions s) s').
  { intros s' Hsr. split; [done|]. unfold get_all_actions, gets, all_actions.
    by rewrite (sr_actions _ _ Hsr), (sr_order _ _ Hsr). }
  split; [|split].
  - intros cb tts e s' E. apply add_any_action_Raise in E as [-> _]; [done|].
    by left.
  - intros dflt var tts e s'. rewrite add_yesno_unfold.
    destruct (add_yesno_var_frame s dflt var Hwf) as (Hsr & _).
    destruct (add_yesno_var dflt var s) as [v s1|e1 s1]; simpl in *.
    + intros E. apply add_any_action_Raise in E as [-> _]; [|by left].
      by apply Hall.
    + intros [= _ <-]. by apply Hall.
  - intros cs dflt var tts e s'. rewrite add_choice_unfold.
    destruct (add_choice_var_frame s cs dflt var Hwf) as (Hsr & _).
    destruct (add_choice_var cs dflt var s) as [v s1|e1 s1]; simpl in *.
    + intros E. apply add_any_action_Raise in E as [-> _]; [|by left].
      by apply Hall.
    + intros [= _ <-]. by apply Hall.
Qed.

Lemma X4_witness :
  wf registry_theme ∧
  ∃ e s', add_choice "View/Theme" ["dark"; "blue"] (Some "blue") (Some 0) None
            registry_theme = Raise e s' ∧
    same_registry registry_theme s' ∧
    get_all_actions s' = Ok (all_actions registry_theme) s'.
Proof.
  split; [apply registry_theme_wf|].
  destruct (add_choice "View/Theme" ["dark"; "blue"] (Some "blue") (Some 0) None
              registry_theme) as [a s'|e s'] eqn:E.
  - exfalso. revert E. vm_compute. discriminate.
  - exists e, s'. split; [reflexivity|].
    by apply (proj2 (proj2 (X4_failed_registration_keeps_registry registry_theme
                              "View/Theme" registry_theme_wf))
                ["dark"; "blue"] (Some "blue") (Some 0) None e s' E).
Defined.

(** ** The variable of a yes/no action *)

Lemma add_any_action_yesno_var p kb v tts s1 a s' :
  _add_any_action p yesno NoCallback kb (Some v) tts s1 = Ok a s' →
  Action.var a = Some v ∧ Action.kind a = yesno ∧ tk_vars s' = tk_vars s1 ∧
  warned s' = warned s1.
Proof.
  intros H. apply add_any_action_Ok in H
    as (a0 & s2 & _ & _ & _ & Hinit & -> & _ & _ & Hvars & _ & Hw & _).
  apply Action_init_Ok in Hinit as (_ & Hk & _ & _ & (w & [= <-] & Hv & ->)).
  done.
Qed.

(** X5: the variable of a yes/no action.  With neither a default nor a
    variable the call raises [ConfigurationError], whatever the path is, and
    changes nothing.  With a default only, the action gets a new variable
    that holds the default, and the variables that existed are untouched.
    With a variable and a default, the action gets that variable, which then
    holds the default, and no other variable changes.  With a variable only,
    the action gets it and no variable changes. *)
Theorem X5_yesno_variable s p kb tts :
  wf s →
  add_yesno p None kb None tts s = Raise ConfigurationError s ∧
  (∀ d, valid_path s p →
     ∃ a s' v, add_yesno p (Some d) kb None tts s = Ok a s' ∧
       Action.var a = Some v ∧ tk_vars s !! v = None ∧
       tk_vars s' !! v = Some (MkCell (VBool d) []) ∧ cells_kept s s') ∧
  (∀ v d, valid_path s p →
     ∃ a s', add_yesno p (Some d) kb (Some v) tts s = Ok a s' ∧
       Action.var a = Some v ∧
       content <$> tk_vars s' !! v = Some (VBool d) ∧
       ∀ w, w ≠ v → tk_vars s' !! w = tk_vars s !! w) ∧
  (∀ v, valid_path s p →
     ∃ a s', add_yesno p None kb (Some v) tts s = Ok a s' ∧
       Action.var a = Some v ∧ tk_vars s' = tk_vars s ∧ warned s' = warned s).
Proof.
  intros Hwf. split; [reflexivity|].
  assert (Hrun : ∀ dflt var, valid_path s p → yesno_check dflt var = None →
    ∃ a s' v s1, add_yesno_var dflt var s = Ok v s1 ∧
      add_yesno p dflt kb var tts s = Ok a s' ∧
      Action.var a = Some v ∧ tk_vars s' = tk_vars s1 ∧ warned s' = warned s1).
  { intros dflt var (Hs & He & Hn) Hc.
    destruct (add_yesno_succeeds p dflt kb var tts s) as (a & s' & E); try done.
    exists a, s'. revert E. rewrite add_yesno_unfold.
    destruct (add_yesno_var dflt var s) as [v s1|e s1]; [|discriminate].
    intros E. exists v, s1. split; [done|]. split; [done|].
    apply add_any_action_yesno_var in E. tauto. }
  split; [|split].
  - intros d Hp. destruct (Hrun (Some d) None Hp eq_refl)
      as (a & s' & v & s1 & Hvar & E & Hv & Hvars & _).
    rewrite add_yesno_var_spec in Hvar by done. injection Hvar as <- <-.
    destruct (new_written_frame s (VBool d) (VBool false)) as (_ & _ & Hk & _ & Hnew).
    exists a, s', (fresh_var s). split; [done|]. split; [done|].
    split; [apply fresh_var_None|]. rewrite Hvars. split; [exact Hnew|].
    intros w c Hw. rewrite Hvars. by apply Hk.
  - intros v d Hp. destruct (Hrun (Some d) (Some v) Hp eq_refl)
      as (a & s' & v' & s1 & Hvar & E & Hv & Hvars & _).
    rewrite add_yesno_var_spec in Hvar by done. injection Hvar as <- <-.
    exists a, s'. split; [done|]. split; [done|]. rewrite Hvars.
    split; [apply content_written|]. intros w Hw. by apply written_other.
  - intros v Hp. destruct (Hrun None (Some v) Hp eq_refl)
      as (a & s' & v' & s1 & Hvar & E & Hv & Hvars & Hw).
    rewrite add_yesno_var_spec in Hvar by done. injection Hvar as <- <-.
    exists a, s'. done.
Qed.

Lemma X5_witness :
  wf registry_wrap ∧ valid_path registry_wrap "View/Wrap2" ∧
  (∃ a s' v, add_yesno "View/Wrap2" (Some true) None None None registry_wrap = Ok a s' ∧
     Action.var a = Some v ∧ tk_vars registry_wrap !! v = None ∧
     tk_vars s' !! v = Some (MkCell (VBool true) [])) ∧
  (∃ a s', add_yesno "View/Wrap2" (Some true) None (Some 0) None registry_wrap = Ok a s' ∧
     Action.var a = Some 0 ∧ content <$> tk_vars s' !! 0 = Some (VBool true)).
Proof.
  assert (V : valid_path registry_wrap "View/Wrap2").
  { split; [reflexivity|]. split; [reflexivity | vm_compute; reflexivity]. }
  destruct (X5_yesno_variable registry_wrap "View/Wrap2" None None registry_wrap_wf)
    as (_ & Hnew & Hboth & _).
  split; [apply registry_wrap_wf|]. split; [exact V|]. split.
  - destruct (Hnew true V) as (a & s' & v & E & Hv & Hf & Hc & _).
    exists a, s', v. done.
  - destruct (Hboth 0 true V) as (a & s' & E & Hv & Hc & _).
    exists a, s'. done.
Defined.

(** ** The scripts a registration binds *)

Lemma bound_after_other key h m tag key' :
  key' ≠ key ∨ (tag ≠ "Text" ∧ tag ≠ "all") →
  bound_after (Some key) h m !! (tag, key') = m !! (tag, key').
Proof.
  intros H. simpl.
  rewrite lookup_insert_ne by (intros [= ? ?]; destruct H as [?|[? ?]]; congruence).
  rewrite lookup_insert_ne by (intros [= ? ?]; destruct H as [?|[? ?]]; congruence).
  done.
Qed.

Lemma add_any_action_bindings p k cc b var tts s a s' :
  _add_any_action p k cc b var tts s = Ok a s' →
  match b with
  | Some key =>
      bound s' !! ("Text", key) = Some [BindCallback p k] ∧
      bound s' !! ("all", key) =
        Some (default [] (bound s !! ("all", key)) ++ [BindCallback p k]) ∧
      ∀ tag key', key' ≠ key ∨ (tag ≠ "Text" ∧ tag ≠ "all") →
        bound s' !! (tag, key') = bound s !! (tag, key')
  | None => bound s' = bound s
  end.
Proof.
  intros H. destruct b as [key|].
  - destruct (add_any_action_bound _ _ _ _ _ _ _ _ _ H) as [Ht Ha].
    split; [done|]. split; [done|].
    apply add_any_action_Ok in H
      as (a0 & s1 & _ & _ & _ & _ & _ & _ & _ & _ & _ & _ & _ & _ & Hb & _).
    intros tag key' Hk. rewrite Hb. by apply bound_after_other.
  - by apply add_any_action_Ok in H
      as (a0 & s1 & _ & _ & _ & _ & _ & _ & _ & _ & _ & _ & _ & _ & Hb & _).
Qed.

(** X6: the key binding of a registration.  The new action's
    [bind_callback] becomes the ONLY script of the class [Text] for the key
    (whatever was bound there is dropped) and the LAST script of [all] for
    the key (what was bound there stays, in order); the scripts of other
    keys and other tags are untouched.  So of two actions registered with
    one key the later one alone is bound to [Text], and both to [all].  A
    registration without a key binding, and every [add_choice], binds
    nothing. *)
Theorem X6_key_binding_installed s p :
  wf s →
  (∀ cb key tts a s', add_command p cb (Some key) tts s = Ok a s' →
     bound s' !! ("Text", key) = Some [BindCallback p command] ∧
     bound s' !! ("all", key) =
       Some (default [] (bound s !! ("all", key)) ++ [BindCallback p command]) ∧
     ∀ tag key', key' ≠ key ∨ (tag ≠ "Text" ∧ tag ≠ "all") →
       bound s' !! (tag, key') = bound s !! (tag, key')) ∧
  (∀ dflt key var tts a s', add_yesno p dflt (Some key) var tts s = Ok a s' →
     bound s' !! ("Text", key) = Some [BindCallback p yesno] ∧
     bound s' !! ("all", key) =
       Some (default [] (bound s !! ("all", key)) ++ [BindCallback p yesno]) ∧
     ∀ tag key', key' ≠ key ∨ (tag ≠ "Text" ∧ tag ≠ "all") →
       bound s' !! (tag, key') = bound s !! (tag, key')) ∧
  (∀ cb tts a s', add_command p cb None tts s = Ok a s' → bound s' = bound s) ∧
  (∀ dflt var tts a s', add_yesno p dflt None var tts s = Ok a s' → bound s' = bound s) ∧
  (∀ cs dflt var tts a s', add_choice p cs dflt var tts s = Ok a s' → bound s' = bound s).
Proof.
  intros Hwf.
  assert (Hy : ∀ dflt kb var tts a s', add_yesno p dflt kb var tts s = Ok a s' →
    ∃ v s1, bound s1 = bound s ∧
      _add_any_action p yesno NoCallback kb (Some v) tts s1 = Ok a s').
  { intros dflt kb var tts a s'. rewrite add_yesno_unfold.
    destruct (add_yesno_var_frame s dflt var Hwf) as (Hsr & _).
    destruct (add_yesno_var dflt var s) as [v s1|e s1]; [|discriminate].
    intros E. exists v, s1. split; [apply Hsr | done]. }
  split; [|split; [|split; [|split]]].
  - intros cb key tts a s' E. apply (add_any_action_bindings _ _ _ _ _ _ _ _ _ E).
  - intros dflt key var tts a s' E.
    destruct (Hy _ _ _ _ _ _ E) as (v & s1 & Hb & E1).
    pose proof (add_any_action_bindings _ _ _ _ _ _ _ _ _ E1) as H.
    simpl in H. by rewrite Hb in H.
  - intros cb tts a s' E. apply (add_any_action_bindings _ _ _ _ _ _ _ _ _ E).
  - intros dflt var tts a s' E.
    destruct (Hy _ _ _ _ _ _ E) as (v & s1 & Hb & E1).
    pose proof (add_any_action_bindings _ _ _ _ _ _ _ _ _ E1) as H.
    simpl in H. by rewrite Hb in H.
  - intros cs dflt var tts a s'. rewrite add_choice_unfold.
    destruct (add_choice_var_frame s cs dflt var Hwf) as (Hsr & _).
    destruct (add_choice_var cs dflt var s) as [v s1|e s1]; [|discriminate].
    intros E. pose proof (add_any_action_bindings _ _ _ _ _ _ _ _ _ E) as H.
    simpl in *. by rewrite H, (sr_bound _ _ Hsr).
Qed.

Lemma X6_witness :
  wf registry_close ∧
  ∃ a s', add_command "File/Close window" 8 (Some "<Control-w>") None registry_close = Ok a s' ∧
    bound s' !! ("Text", "<Control-w>") = Some [BindCallback "File/Close window" command] ∧
    bound s' !! ("all", "<Control-w>") =
      Some [BindCallback "File/Close" command; BindCallback "File/Close window" command].
Proof.
  split; [apply registry_close_wf|].
  destruct (add_command_succeeds "File/Close window" 8 (Some "<Control-w>") None
              registry_close) as (a & s' & E);
    [reflexivity | reflexivity | vm_compute; reflexivity |].
  exists a, s'. split; [exact E|].
  destruct (proj1 (X6_key_binding_installed registry_close "File/Close window"
                     registry_close_wf) 8 "<Control-w>" None a s' E) as (Ht & Ha & _).
  split; [exact Ht|]. rewrite Ha. vm_compute. reflexivity.
Defined.

(** ** A key in a text widget *)

Lemma add_command_registered p cb kb tts s a s' :
  add_command p cb kb tts s = Ok a s' →
  _actions s' !! p = Some a ∧ Action.callback a = Some cb ∧
  Action._enabled a = initially_enabled tts s.
Proof.
  intros H. apply add_any_action_Ok in H
    as (a0 & s1 & _ & _ & _ & Hinit & -> & Hact & _).
  apply Action_init_Ok in Hinit as (_ & _ & _ & _ & (f & [= <-] & Hf & _)).
  rewrite Hact, lookup_insert_eq. done.
Qed.

(** X7: a command registered with a key binding is bound twice, to the
    class [Text] and to [all], but a key that arrives at a text widget (a
    widget with no script of its own for the key) runs the callback exactly
    once when the command is enabled: the script of [Text] answers ['break']
    and the script of [all] is not reached.  When the command is disabled the
    event goes on to the tags after [Text], with the state as it is. *)
Theorem X7_key_in_text_widget s p cb key tts a s' w tags :
  add_command p cb (Some key) tts s = Ok a s' →
  w ≠ "Text" → w ≠ "all" → bound s !! (w, key) = None →
  (Action._enabled a = true →
   key_event (w :: "Text" :: tags) key s' =
     Ok Break (set_called (fun l => l ++ [cb]) s')) ∧
  (Action._enabled a = false →
   key_event (w :: "Text" :: tags) key s' = key_event tags key s').
Proof.
  intros E Hw1 Hw2 Hw.
  destruct (add_command_registered _ _ _ _ _ _ _ E) as (Ha & Hcb & _).
  destruct (add_any_action_bindings _ _ _ _ _ _ _ _ _ E) as (Ht & _ & Hother).
  assert (Hscripts : ∀ tags',
    concat (map (fun tag => default [] (bound s' !! (tag, key))) (w :: "Text" :: tags')) =
    BindCallback p command ::
      concat (map (fun tag => default [] (bound s' !! (tag, key))) tags')).
  { intros tags'. simpl. rewrite Ht. rewrite Hother by (right; done).
    by rewrite Hw. }
  unfold key_event, bind, gets. rewrite Hscripts. simpl. unfold bind. split.
  - intros He. by rewrite (bind_callback_command s' p a cb Ha He Hcb).
  - intros He. by rewrite (bind_callback_disabled s' p a command Ha He).
Qed.

Lemma X7_witness :
  ∃ a s', add_command "File/Close" 7 (Some "<Control-w>") (Some [Some Tab])
            (initial (Some FileTab)) = Ok a s' ∧
    key_event text_widget "<Control-w>" s' =
      Ok Break (set_called (fun l => l ++ [7]) s').
Proof.
  destruct (add_command_succeeds "File/Close" 7 (Some "<Control-w>") (Some [Some Tab])
              (initial (Some FileTab))) as (a & s' & E);
    [reflexivity | reflexivity | apply lookup_empty |].
  exists a, s'. split; [exact E|].
  apply (X7_key_in_text_widget _ _ _ _ _ _ _ ".editor" ["."; "all"] E);
    [discriminate | discriminate | apply lookup_empty |].
  destruct (add_command_registered _ _ _ _ _ _ _ E) as (_ & _ & ->).
  reflexivity.
Defined.

(** ** Changes of the selected tab *)

Lemma set_selected_same s tab : selected s = tab → set_selected tab s = s.
Proof. intros <-. by destruct s. Qed.

Lemma foldl_retab_fixed tab s hs :
  (∀ h, h ∈ hs → retab tab s h = s) → foldl (retab tab) s hs = s.
Proof.
  induction hs as [|h hs IH]; intros H; [done|].
  simpl. rewrite (H h) by (by left). apply IH. intros h' Hh'. apply H. by right.
Qed.

Lemma foldl_retab_rest tab hs : ∀ s,
  _order (foldl (retab tab) s hs) = _order s ∧
  tk_vars (foldl (retab tab) s hs) = tk_vars s ∧
  warned (foldl (retab tab) s hs) = warned s ∧
  bound (foldl (retab tab) s hs) = bound s ∧
  called (foldl (retab tab) s hs) = called s.
Proof.
  induction hs as [|h hs IH]; intros s; [done|].
  simpl. destruct (IH (retab tab s h)) as (-> & -> & -> & -> & ->).
  destruct (retab_frame tab s h) as (? & ? & ? & _ & ? & ?). done.
Qed.

(** X8: a second [<<NotebookTabChanged>>] for the same tab changes nothing
    and generates nothing: after the first one every action with a filter
    has the flag its filter gives for that tab, so every second write to
    [enabled] writes the value that is there. *)
Theorem X8_tab_change_twice s tab s1 :
  wf s → notebook_tab_changed tab s = Ok tt s1 →
  notebook_tab_changed tab s1 = Ok tt s1.
Proof.
  intros Hwf H1.
  pose proof (notebook_tab_changed_wf s tab Hwf) as Hwf1.
  rewrite notebook_tab_changed_spec in H1 by done.
  rewrite notebook_tab_changed_spec in Hwf1 by done.
  simpl in Hwf1. injection H1 as H1. rewrite H1 in Hwf1.
  set (s0 := set_selected tab s) in *.
  assert (Hwf0 : wf s0) by (eapply wf_same_skeleton; [exact Hwf | by constructor]).
  destruct (foldl_retab_frame tab (tab_changed s) s0) as (Hsel & Htab & _).
  rewrite H1 in Hsel, Htab. simpl in Hsel, Htab.
  rewrite notebook_tab_changed_spec by done.
  rewrite set_selected_same by done. rewrite Htab. f_equal.
  apply foldl_retab_fixed. intros [p cls] Hh.
  destruct (wf_tab_changed s Hwf _ Hh) as [a Ha]. simpl in Ha.
  assert (Ha1 : _actions s1 !! p = Some (Action.with_enabled (isinstance tab cls) a)).
  { rewrite <- H1. apply foldl_retab_at; [apply (wf_tab_changed_nodup s Hwf) | done | done]. }
  unfold retab. simpl. rewrite Ha1. simpl.
  by rewrite bool_decide_eq_true_2.
Qed.

Lemma X8_witness :
  wf registry_close_tab ∧
  ∃ s1, notebook_tab_changed None registry_close_tab = Ok tt s1 ∧
    generated s1 = generated registry_close_tab ++ [("<<ActionDisabled>>", "File/Close")] ∧
    notebook_tab_changed None s1 = Ok tt s1.
Proof.
  split; [apply registry_close_tab_wf|].
  destruct (notebook_tab_changed None registry_close_tab) as [[] s1|e s1] eqn:E.
  - exists s1. split; [reflexivity|]. split.
    + revert E. vm_compute. by intros [= <-].
    + by apply (X8_tab_change_twice registry_close_tab None s1 registry_close_tab_wf).
  - exfalso. revert E. vm_compute. discriminate.
Defined.

(** X9: a change of the selected tab touches nothing but the selected tab,
    the [enabled] flags of the actions registered with a filter, and the
    events: an action without a filter keeps its flag, and the order of the
    registry, the variables, the warnings, the key bindings, the handlers
    of the tab manager and the callbacks run are as before. *)
Theorem X9_tab_change_frame s tab :
  wf s →
  ∃ s', notebook_tab_changed tab s = Ok tt s' ∧
    (∀ q, q ∉ (tab_changed s).*1 → _actions s' !! q = _actions s !! q) ∧
    _order s' = _order s ∧ tk_vars s' = tk_vars s ∧ warned s' = warned s ∧
    tab_changed s' = tab_changed s ∧ bound s' = bound s ∧ called s' = called s.
Proof.
  intros Hwf. rewrite notebook_tab_changed_spec by done.
  eexists. split; [reflexivity|].
  destruct (foldl_retab_rest tab (tab_changed s) (set_selected tab s))
    as (-> & -> & -> & -> & ->).
  destruct (foldl_retab_frame tab (tab_changed s) (set_selected tab s)) as (_ & -> & _).
  split; [|done]. intros q Hq. by rewrite foldl_retab_other.
Qed.

Lemma X9_witness :
  wf registry_theme ∧
  ∃ s', notebook_tab_changed (Some FileTab) registry_theme = Ok tt s' ∧
    _actions s' !! "View/Theme" = _actions registry_theme !! "View/Theme" ∧
    tk_vars s' = tk_vars registry_theme.
Proof.
  split; [apply registry_theme_wf|].
  destruct (X9_tab_change_frame registry_theme (Some FileTab) registry_theme_wf)
    as (s' & E & Hq & _ & Hv & _).
  exists s'. split; [exact E|]. split; [|exact Hv].
  apply Hq. vm_compute. by intros ?%elem_of_nil.
Defined.

(** ** Writes to variables *)

(** X10: a write of one of the choices to the variable of a choice action
    gives no warning that names the action (and no warning at all when the
    variable is the variable of this action only); the variable holds the
    written value and the registry is as it was. *)
Theorem X10_write_inside_choices s p a v cs x :
  wf s → _actions s !! p = Some a → Action.kind a = choice →
  Action.var a = Some v → Action.choices a = Some cs →
  value_in x cs = true →
  ∃ s' ws, var_set v x s = Ok tt s' ∧
    content <$> tk_vars s' !! v = Some x ∧
    same_registry s s' ∧
    warned s' = warned s ++ ws ∧ naming p ws = [] ∧
    (traces_of s v = [p] → warned s' = warned s).
Proof.
  intros Hwf Ha Hk Hv Hcs Hx.
  exists (written v x s), (reports s x (traces_of s v)).
  split; [by apply var_set_wf|].
  split; [apply content_written|].
  split; [apply same_registry_written|].
  split; [reflexivity|].
  assert (Hrep : report s x p = []) by (unfold report; by rewrite Ha, Hcs, Hx).
  split.
  - rewrite naming_reports; [|done|by apply wf_traces_nodup].
    by case_decide.
  - intros Htr. simpl. rewrite Htr. unfold reports. simpl.
    rewrite Hrep. by rewrite !app_nil_r.
Qed.

Lemma X10_witness :
  wf registry_theme ∧
  ∃ s', var_set 0 (VStr "light") registry_theme = Ok tt s' ∧
    content <$> tk_vars s' !! 0 = Some (VStr "light") ∧
    warned s' = warned registry_theme.
Proof.
  split; [apply registry_theme_wf|].
  destruct (X10_write_inside_choices registry_theme "View/Theme"
              (Action.Make "View/Theme" choice None true None (Some 0) (Some ["dark"; "light"]))
              0 ["dark"; "light"] (VStr "light") registry_theme_wf)
    as (s' & ws & E & Hc & _ & _ & _ & Hw);
    [vm_compute; reflexivity | reflexivity | reflexivity | reflexivity |
     vm_compute; reflexivity |].
  exists s'. split; [exact E|]. split; [exact Hc|].
  apply Hw. vm_compute. reflexivity.
Defined.

(** X11: the key of an enabled yes/no action, twice: both events are
    intercepted, and after the second one the variable holds the boolean it
    held at first; no variable is left changed, nor is the registry. *)
Theorem X11_key_twice_restores s p a v c b :
  wf s → _actions s !! p = Some a → Action._enabled a = true →
  Action.var a = Some v → tk_vars s !! v = Some c → content c = VBool b →
  ∃ s1 s2, bind_callback p yesno s = Ok Break s1 ∧
    content <$> tk_vars s1 !! v = Some (VBool (negb b)) ∧
    bind_callback p yesno s1 = Ok Break s2 ∧
    tk_vars s2 = tk_vars s ∧ same_registry s s2.
Proof.
  intros Hwf Ha He Hv Hc Hb.
  set (s1 := written v (VBool (negb b)) s).
  assert (Hwf1 : wf s1)
    by (eapply wf_same_skeleton; [exact Hwf | apply same_skeleton_written]).
  exists s1, (written v (VBool (negb (negb b))) s1).
  split; [apply (bind_callback_yesno s p a v b Hwf Ha He Hv);
          rewrite Hc; simpl; by rewrite Hb|].
  split; [apply content_written|].
  split; [apply (bind_callback_yesno s1 p a v (negb b) Hwf1 Ha He Hv), content_written|].
  split; [|by constructor].
  change (tk_vars (written v (VBool (negb (negb b))) s1))
    with (<[v := MkCell (VBool (negb (negb b))) (traces_of s1 v)]>
            (<[v := MkCell (VBool (negb b)) (traces_of s v)]> (tk_vars s))).
  unfold s1. rewrite traces_of_written, insert_insert_eq, negb_involutive.
  apply insert_id. rewrite Hc. f_equal. unfold traces_of. rewrite Hc.
  destruct c; simpl in *; by subst.
Qed.

Lemma X11_witness :
  wf registry_wrap_key ∧
  ∃ s1 s2, bind_callback "View/Wrap" yesno registry_wrap_key = Ok Break s1 ∧
    content <$> tk_vars s1 !! 0 = Some (VBool true) ∧
    bind_callback "View/Wrap" yesno s1 = Ok Break s2 ∧
    tk_vars s2 = tk_vars registry_wrap_key.
Proof.
  split; [apply registry_wrap_key_wf|].
  destruct (X11_key_twice_restores registry_wrap_key "View/Wrap"
              (Action.Make "View/Wrap" yesno (Some "<Alt-z>") true None (Some 0) None)
              0 (MkCell (VBool false) []) false registry_wrap_key_wf)
    as (s1 & s2 & E1 & Hc & E2 & Hv & _);
    [vm_compute; reflexivity | reflexivity | reflexivity | vm_compute; reflexivity |
     reflexivity |].
  exists s1, s2. done.
Defined.

(** ** Lookup *)

(** X12: [get_action] never changes the state; the action it returns is the
    entry of the registry for its argument without the trailing ['/'], and
    that is the action's own path; it raises [NotFoundError], and nothing
    else, exactly when there is no such entry.  Every registered action is
    returned for its own path. *)
Theorem X12_get_action_sound s :
  wf s →
  (∀ p a s', get_action p s = Ok a s' →
     s' = s ∧ Action.path a = rstrip p slash ∧ _actions s !! Action.path a = Some a) ∧
  (∀ p e s', get_action p s = Raise e s' →
     s' = s ∧ e = NotFoundError ∧ _actions s !! rstrip p slash = None) ∧
  (∀ p a, _actions s !! p = Some a → get_action (Action.path a) s = Ok a s).
Proof.
  intros Hwf. split; [|split].
  - intros p a s'. unfold get_action.
    destruct (_actions s !! rstrip p slash) as [a'|] eqn:E; [|discriminate].
    intros [= <- <-]. pose proof (wf_path s Hwf _ _ E) as Hp.
    split; [done|]. split; [done|]. by rewrite Hp.
  - intros p e s'. unfold get_action.
    destruct (_actions s !! rstrip p slash) as [a'|] eqn:E; [discriminate|].
    by intros [= <- <-].
  - intros p a Ha. rewrite (wf_path s Hwf p a Ha).
    by apply get_action_registered.
Qed.

Lemma X12_witness :
  wf registry_ab ∧
  get_action "a/b/" registry_ab =
    Ok (Action.Make "a/b" command None true (Some 0) None None) registry_ab ∧
  Action.path (Action.Make "a/b" command None true (Some 0) None None) =
    rstrip "a/b/" slash.
Proof.
  assert (Hwf : wf registry_ab) by apply add_command_wf, wf_initial.
  assert (E : get_action "a/b/" registry_ab =
    Ok (Action.Make "a/b" command None true (Some 0) None None) registry_ab)
    by (vm_compute; reflexivity).
  split; [exact Hwf|]. split; [exact E|].
  by destruct (proj1 (X12_get_action_sound registry_ab Hwf) _ _ _ E) as (_ & H & _).
Defined.

Lemma times_app c n m : times c n +:+ times c m = times c (n + m).
Proof.
  induction n as [|n IH]; [done|].
  change (String c (times c n +:+ times c m) = String c (times c (n + m))).
  by rewrite IH.
Qed.

Lemma append_assoc (a b c : string) : (a +:+ b) +:+ c = a +:+ (b +:+ c).
Proof.
  induction a as [|x a IH]; [done|].
  change (String x ((a +:+ b) +:+ c) = String x (a +:+ (b +:+ c))).
  by rewrite IH.
Qed.

(** X13: trailing ['/'] never matter to a lookup: for every string [p],
    with or without trailing ['/'] of its own, [get_action] gives for [p]
    followed by any number of ['/'] what it gives for [p]. *)
Theorem X13_trailing_slashes_ignored p n s :
  get_action (p +:+ times slash n) s = get_action p s.
Proof.
  unfold get_action.
  destruct (rstrip_split p slash) as [m Hm].
  assert (E : rstrip (p +:+ times slash n) slash = rstrip p slash).
  { rewrite Hm at 1. rewrite append_assoc, times_app.
    apply rstrip_app_times, endswith_rstrip. }
  by rewrite E.
Qed.

(** ** What stays *)

Lemma extends_refl s : extends s s.
Proof. intros p a Ha. eauto. Qed.

Lemma extends_trans s1 s2 s3 : extends s1 s2 → extends s2 s3 → extends s1 s3.
Proof.
  intros H1 H2 p a Ha. destruct (H1 p a Ha) as (a' & Ha' & E).
  destruct (H2 p a' Ha') as (a'' & Ha'' & E'). exists a''. split; [done | congruence].
Qed.

Lemma same_skeleton_extends s s' : same_skeleton s s' → extends s s'.
Proof.
  intros Hsk p a Ha. pose proof (sk_actions _ _ Hsk p) as E. rewrite Ha in E.
  destruct (_actions s' !! p) as [a'|]; [|discriminate].
  exists a'. split; [done|]. simpl in E. congruence.
Qed.

Lemma add_any_action_extends p k cc b var tts s :
  b = None ∨ k ≠ choice →
  extends s (state_of (_add_any_action p k cc b var tts s)).
Proof.
  intros Hb.
  destruct (_add_any_action p k cc b var tts s) as [a s'|e s'] eqn:E; simpl.
  - apply add_any_action_Ok in E as (a0 & s1 & _ & _ & Hnone & _ & _ & Hact & _).
    intros q aq Hq. exists aq. split; [|done].
    rewrite Hact, lookup_insert_ne; [done|]. intros <-. congruence.
  - apply add_any_action_Raise in E as [-> _]; [|done]. apply extends_refl.
Qed.

Lemma step_extends s s' : wf s → step s s' → extends s s'.
Proof.
  intros Hwf Hstep. destruct Hstep.
  - apply add_any_action_extends. by right.
  - rewrite add_yesno_unfold.
    destruct (add_yesno_var_frame s dflt var Hwf) as (_ & Hsk & _).
    destruct (add_yesno_var dflt var s) as [v s1|e s1]; simpl in *.
    + eapply extends_trans; [by apply same_skeleton_extends|].
      apply add_any_action_extends. by right.
    + by apply same_skeleton_extends.
  - rewrite add_choice_unfold.
    destruct (add_choice_var_frame s cs dflt var Hwf) as (_ & Hsk & _).
    destruct (add_choice_var cs dflt var s) as [v s1|e s1]; simpl in *.
    + eapply extends_trans; [by apply same_skeleton_extends|].
      apply add_any_action_extends. by left.
    + by apply same_skeleton_extends.
  - by apply same_skeleton_extends, var_set_skeleton.
  - apply same_skeleton_extends, new_variable_skeleton.
  - apply same_skeleton_extends, enabled_setter_skeleton.
  - by apply same_skeleton_extends, notebook_tab_changed_skeleton.
  - by apply same_skeleton_extends, key_event_skeleton.
  - apply same_skeleton_extends. by constructor.
Qed.

(** X14: nothing unregisters or rewrites an action.  Whatever entry points
    are called (returning or raising) and whatever the host does afterwards
    (writes to variables, to [enabled], tab changes, key events), an action
    of the registry is still the entry of its path, with the same path,
    kind, binding, callback, variable and choices: only its [enabled] flag
    can differ. *)
Theorem X14_actions_persist s s' p a :
  wf s → rtc step s s' → _actions s !! p = Some a →
  ∃ a', _actions s' !! p = Some a' ∧
    Action.path a' = Action.path a ∧ Action.kind a' = Action.kind a ∧
    Action.binding a' = Action.binding a ∧ Action.callback a' = Action.callback a ∧
    Action.var a' = Action.var a ∧ Action.choices a' = Action.choices a.
Proof.
  intros Hwf Hrtc Ha.
  assert (Hext : extends s s').
  { clear Ha. induction Hrtc as [s|s s1 s' Hstep _ IH]; [apply extends_refl|].
    eapply extends_trans; [by apply step_extends|].
    apply IH. by eapply step_wf. }
  destruct (Hext p a Ha) as (a' & Ha' & E). exists a'. split; [done|].
  by apply with_enabled_inj_fields in E.
Qed.

Lemma X14_witness :
  wf registry_theme ∧ rtc step registry_theme registry_two_themes ∧
  ∃ a', _actions registry_two_themes !! "View/Theme" = Some a' ∧
    Action.kind a' = choice ∧ Action.var a' = Some 0 ∧
    Action.choices a' = Some ["dark"; "light"].
Proof.
  assert (Hstep : rtc step registry_theme registry_two_themes).
  { apply rtc_once. unfold registry_two_themes. apply step_add_choice. }
  split; [apply registry_theme_wf|]. split; [exact Hstep|].
  destruct (X14_actions_persist registry_theme registry_two_themes "View/Theme"
              (Action.Make "View/Theme" choice None true None (Some 0) (Some ["dark"; "light"]))
              registry_theme_wf Hstep)
    as (a' & Ha' & _ & Hk & _ & _ & Hv & Hc); [vm_compute; reflexivity|].
  exists a'. done.
Defined.

(** ** Reachable states *)

(** X15: in every reachable state the events of the host that the module
    handles do not raise: a write to any variable runs the checks on it to
    the end, a change of the selected tab runs every [enable_or_disable] to
    the end, and a write to [enabled] of a registered action returns.  (The
    write traces of a variable are checks of registered choice actions on
    that very variable, and the handlers of the tab manager belong to
    registered actions.) *)
Theorem X15_host_events_return s :
  reachable s →
  (∀ v x, raised (var_set v x s) = None) ∧
  (∀ tab, raised (notebook_tab_changed tab s) = None) ∧
  (∀ p b, is_Some (_actions s !! p) → raised (Action_enabled_setter p b s) = None).
Proof.
  intros Hr. pose proof (reachable_wf s Hr) as Hwf. split; [|split].
  - intros v x. by rewrite var_set_wf.
  - intros tab. by rewrite notebook_tab_changed_spec.
  - intros p b [a Ha]. by rewrite (enabled_setter_spec s p a b Ha).
Qed.

Lemma X15_witness :
  reachable registry_two_themes ∧
  raised (var_set 0 (VStr "green") registry_two_themes) = None ∧
  raised (notebook_tab_changed (Some FileTab) registry_two_themes) = None.
Proof.
  destruct (X15_host_events_return registry_two_themes registry_two_themes_reachable)
    as (Hv & Ht & _).
  split; [apply registry_two_themes_reachable|]. split; [apply Hv | apply Ht].
Defined.

(** X16: what is true of every registered action in every reachable state:
    it is stored under its own path, which neither starts nor ends with
    ['/']; a command has a callback, a yes/no action has a variable, and a
    choice action has its choices and a variable that exists and carries the
    action's check among its write traces. *)
Theorem X16_registered_actions_are_well_formed s p a :
  reachable s → _actions s !! p = Some a →
  Action.path a = p ∧ startswith p slash = false ∧ endswith p slash = false ∧
  match Action.kind a with
  | command => is_Some (Action.callback a)
  | yesno => is_Some (Action.var a)
  | choice => ∃ v cs c, Action.var a = Some v ∧ Action.choices a = Some cs ∧
      tk_vars s !! v = Some c ∧ p ∈ traces c
  end.
Proof.
  intros Hr Ha. pose proof (reachable_wf s Hr) as Hwf.
  split; [by eapply wf_path|].
  destruct (wf_valid_path s Hwf p) as [Hs He]; [eauto|].
  split; [done|]. split; [done|].
  destruct (Action.kind a) eqn:Hk.
  - by eapply wf_command.
  - destruct (wf_choice s Hwf p a Ha Hk) as (v & cs & Hv & Hcs & Hin).
    unfold traces_of in Hin.
    destruct (tk_vars s !! v) as [c|] eqn:Hc; [|by apply elem_of_nil in Hin].
    exists v, cs, c. done.
  - by eapply wf_yesno.
Qed.

Lemma X16_witness :
  reachable registry_theme ∧
  _actions registry_theme !! "View/Theme" =
    Some (Action.Make "View/Theme" choice None true None (Some 0) (Some ["dark"; "light"])) ∧
  ∃ v cs c, Some 0 = Some v ∧ Some ["dark"; "light"] = Some cs ∧
    tk_vars registry_theme !! v = Some c ∧ "View/Theme" ∈ traces c.
Proof.
  assert (H : _actions registry_theme !! "View/Theme" =
    Some (Action.Make "View/Theme" choice None true None (Some 0) (Some ["dark"; "light"])))
    by (vm_compute; reflexivity).
  split; [apply registry_theme_reachable|]. split; [exact H|].
  by destruct (X16_registered_actions_are_well_formed registry_theme "View/Theme" _
                 registry_theme_reachable H) as (_ & _ & _ & Hk).
Defined.

(** ** The assertion on the binding *)

(** X17: the assertion that only commands and yes/no actions have a key
    binding is made at the end of [_add_any_action].  A direct call for a
    choice with a key binding raises [AssertionError] only after the action
    is in the registry and [<<NewAction>>] is generated; no script is bound.
    The entry points never make such a call: [add_choice] passes no
    binding. *)
Theorem X17_assertion_comes_after_registration s p cs key v c :
  valid_path s p → tk_vars s !! v = Some c →
  ∃ s', _add_any_action p choice (Choices cs) (Some key) (Some v) None s =
          Raise AssertionError s' ∧
    _actions s' !! p =
      Some (Action.Make p choice (Some key) true None (Some v) (Some cs)) ∧
    generated s' = generated s ++ [("<<NewAction>>", p)] ∧
    bound s' = bound s.
Proof.
  intros (Hs & He & Hnone) Hc.
  unfold _add_any_action. rewrite Hs, He. simpl.
  unfold bind at 1; unfold gets at 1.
  rewrite bool_decide_eq_false_2 by (rewrite Hnone; by intros [? ?]).
  unfold bind, trace_add, modify, event_generate, modify, ret. rewrite Hc.
  unfold raise. eexists. split; [reflexivity|]. simpl.
  rewrite lookup_insert_eq. done.
Qed.

Lemma X17_witness :
  valid_path registry_theme "Edit/Case" ∧
  tk_vars registry_theme !! 0 = Some (MkCell (VStr "dark") ["View/Theme"]) ∧
  ∃ s', _add_any_action "Edit/Case" choice (Choices ["dark"]) (Some "<F2>") (Some 0) None
          registry_theme = Raise AssertionError s' ∧
    is_Some (_actions s' !! "Edit/Case").
Proof.
  assert (V : valid_path registry_theme "Edit/Case").
  { split; [reflexivity|]. split; [reflexivity | vm_compute; reflexivity]. }
  assert (H0 : tk_vars registry_theme !! 0 = Some (MkCell (VStr "dark") ["View/Theme"]))
    by (vm_compute; reflexivity).
  split; [exact V|]. split; [exact H0|].
  destruct (X17_assertion_comes_after_registration registry_theme "Edit/Case"
              ["dark"] "<F2>" 0 _ V H0) as (s' & E & Ha & _).
  exists s'. split; [exact E|]. rewrite Ha. eauto.
Defined.

(** ** The action a registration returns *)

Lemma add_any_action_returned p k cc b var tts s a s' a0 s0 :
  Action_init p k cc b var s = Ok a0 s0 →
  _add_any_action p k cc b var tts s = Ok a s' →
  a = Action.with_enabled (initially_enabled tts s) a0 ∧
  generated s' = generated s ++ ("<<NewAction>>", p) ::
    (if initially_enabled tts s then [] else [("<<ActionDisabled>>", p)]) ∧
  tab_changed s' = tab_changed s ++
    match tts with Some l => [(p, actual_tabtypes l)] | None => [] end.
Proof.
  intros Hinit H. apply add_any_action_Ok in H
    as (a1 & s1 & _ & _ & _ & Hinit' & -> & _ & _ & _ & Hg & _ & _ & Ht & _).
  rewrite Hinit in Hinit'. by injection Hinit' as <- <-.
Qed.

(** X18: the action an entry point returns.  [add_command] returns a command
    with the path, the callback and the key binding it was given and no
    variable; [add_yesno] a yes/no action with the path, the key binding and
    a variable; [add_choice] a choice with the path, the choices it was
    given, a variable and no key binding.  The action is enabled unless it
    was registered with [tabtypes] that the selected tab is not an instance
    of.  The call generates [<<NewAction>>] with the path, followed by
    [<<ActionDisabled>>] when the action is returned disabled, and nothing
    else; it binds [enable_or_disable] to the tab manager exactly when
    [tabtypes] is given. *)
Theorem X18_returned_action s p :
  wf s →
  (∀ cb kb tts a s', add_command p cb kb tts s = Ok a s' →
     a = Action.Make p command kb (initially_enabled tts s) (Some cb) None None ∧
     generated s' = generated s ++ ("<<NewAction>>", p) ::
       (if initially_enabled tts s then [] else [("<<ActionDisabled>>", p)]) ∧
     tab_changed s' = tab_changed s ++
       match tts with Some l => [(p, actual_tabtypes l)] | None => [] end) ∧
  (∀ dflt kb var tts a s', add_yesno p dflt kb var tts s = Ok a s' →
     ∃ v, a = Action.Make p yesno kb (initially_enabled tts s) None (Some v) None ∧
     generated s' = generated s ++ ("<<NewAction>>", p) ::
       (if initially_enabled tts s then [] else [("<<ActionDisabled>>", p)]) ∧
     tab_changed s' = tab_changed s ++
       match tts with Some l => [(p, actual_tabtypes l)] | None => [] end) ∧
  (∀ cs dflt var tts a s', add_choice p cs dflt var tts s = Ok a s' →
     ∃ v, a = Action.Make p choice None (initially_enabled tts s) None (Some v) (Some cs) ∧
     generated s' = generated s ++ ("<<NewAction>>", p) ::
       (if initially_enabled tts s then [] else [("<<ActionDisabled>>", p)]) ∧
     tab_changed s' = tab_changed s ++
       match tts with Some l => [(p, actual_tabtypes l)] | None => [] end).
Proof.
  intros Hwf. split; [|split].
  - intros cb kb tts a s' E.
    by apply (add_any_action_returned p command (Callback cb) kb None tts s a s'
                _ s eq_refl) in E.
  - intros dflt kb var tts a s'. rewrite add_yesno_unfold.
    destruct (add_yesno_var_frame s dflt var Hwf) as (Hsr & _).
    destruct (add_yesno_var dflt var s) as [v s1|e s1]; [|discriminate].
    intros E. exists v. simpl in Hsr.
    apply (add_any_action_returned p yesno NoCallback kb (Some v) tts s1 a s'
             _ s1 eq_refl) in E.
    unfold initially_enabled in *.
    by rewrite (sr_selected _ _ Hsr), (sr_generated _ _ Hsr),
      (sr_tab_changed _ _ Hsr) in E.
  - intros cs dflt var tts a s'. rewrite add_choice_unfold.
    destruct (add_choice_var_frame s cs dflt var Hwf) as (Hsr & _).
    destruct (add_choice_var cs dflt var s) as [v s1|e s1] eqn:Hvar; [|discriminate].
    destruct (add_choice_var_exists _ _ _ _ _ _ Hwf Hvar) as [c Hc].
    intros E. exists v. simpl in Hsr.
    eapply (add_any_action_returned p choice (Choices cs) None (Some v) tts s1 a s') in E;
      [|unfold Action_init, bind, trace_add; rewrite Hc; reflexivity].
    unfold initially_enabled in *.
    by rewrite (sr_selected _ _ Hsr), (sr_generated _ _ Hsr),
      (sr_tab_changed _ _ Hsr) in E.
Qed.

Lemma X18_witness :
  wf registry_theme ∧
  ∃ a s', add_command "File/Close" 7 (Some "<Control-w>") (Some [Some Tab])
            registry_theme = Ok a s' ∧
    a = Action.Make "File/Close" command (Some "<Control-w>") false (Some 7) None None ∧
    generated s' = generated registry_theme ++
      [("<<NewAction>>", "File/Close"); ("<<ActionDisabled>>", "File/Close")].
Proof.
  split; [apply registry_theme_wf|].
  destruct (add_command_succeeds "File/Close" 7 (Some "<Control-w>") (Some [Some Tab])
              registry_theme) as (a & s' & E);
    [reflexivity | reflexivity | vm_compute; reflexivity |].
  exists a, s'. split; [exact E|].
  destruct (proj1 (X18_returned_action registry_theme "File/Close" registry_theme_wf)
              7 (Some "<Control-w>") (Some [Some Tab]) a s' E) as (Ha & Hg & _).
  split; [exact Ha | exact Hg].
Defined.
